(** * ToDo and Pomodoro service: the handlers of [main.py] and their properties

    The program keeps two module-level lists, [tasks] and
    [pomodoro_sessions], and exposes one handler per HTTP route.  Each
    handler is embedded as a function from the stores (and the values the
    handler draws from its environment: a uuid, clock readings) to a
    result and the stores afterwards.  Exceptions are values of [exn];
    a handler that raises leaves the stores as they were at the raise. *)

From stdpp Require Import base option list gmap strings fin_maps.

Local Open Scope string_scope.
Local Open Scope list_scope.
Local Open Scope Z_scope.

(** ** Exceptions and results *)

(** The exceptions the handlers can end with.  [HTTPException] is the one
    the handlers raise themselves; [RequestValidationError] is what the
    framework answers (422) when a body does not validate against its
    declared model; the other three are raised by attribute access and
    by the model classes inside a handler. *)
Inductive exn : Type :=
| HTTPException (status_code : Z) (detail : string)
| RequestValidationError (fields : list string)
| ValidationError (cls : string) (fields : list string)
| AttributeError (cls : string) (attr : string)
| ValueError (cls : string) (attr : string).

Inductive result (A : Type) : Type :=
| Ok (a : A)
| Err (e : exn).
Arguments Ok {A} a.
Arguments Err {A} e.

#[global] Instance result_ret : MRet result := fun _ a => Ok a.
#[global] Instance result_bind : MBind result := fun _ _ f m =>
  match m with
  | Ok a => f a
  | Err e => Err e
  end.

#[global] Instance result_fmap : FMap result := fun _ _ f m =>
  match m with
  | Ok a => Ok (f a)
  | Err e => Err e
  end.

#[global] Instance exn_eq_dec : EqDecision exn.
Proof. solve_decision. Defined.

(** The error kinds of the interface, as the handlers raise them. *)
Definition DuplicateTitle_create : exn := HTTPException 400 "Task already exists".
Definition DuplicateTitle_update : exn := HTTPException 400 "Task title must be unique".
Definition NotFound_task : exn := HTTPException 404 "Task not found".
Definition ActiveSessionExists : exn :=
  HTTPException 400 "Active Pomodoro session already exists for this task".
Definition NotFound_session : exn :=
  HTTPException 404 "No active Pomodoro session found for this task".

(** ** Values and model classes *)

(** The values that the fields of the model classes hold. *)
Inductive pyval : Type :=
| VNone
| VStr (s : string).

#[global] Instance pyval_eq_dec : EqDecision pyval.
Proof. solve_decision. Defined.

Definition of_optional (o : option string) : pyval :=
  match o with
  | None => VNone
  | Some s => VStr s
  end.

(** A Python [str] is held as its UTF-8 encoding.  A character takes
    one to four bytes there, and every byte after its first has the two
    top bits 10. *)
Definition continuation (c : Ascii.ascii) : bool :=
  match c with
  | Ascii.Ascii _ _ _ _ _ _ b6 b7 => b7 && negb b6
  end.

Fixpoint characters (s : string) : nat :=
  match s with
  | EmptyString => 0
  | String c rest => ((if continuation c then 0 else 1) + characters rest)%nat
  end.

(** Python's [len] of a [str]: the number of its characters. *)
Definition len (s : string) : Z := Z.of_nat (characters s).

(** class Task: [id], [name], [description], [status]. *)
Record Task : Type := mkTask {
  id : string;
  name : string;
  description : option string;
  status : string
}.

(** class TaskCreate: [title], [description]. *)
Record TaskCreate : Type := mkTaskCreate {
  title : string;
  tc_description : option string
}.

(** class PomodoroSession; a datetime is a count of microseconds. *)
Record PomodoroSession : Type := mkPomodoroSession {
  task_id : string;
  start_time : Z;
  end_time : Z;
  completed : bool
}.

#[global] Instance Task_eq_dec : EqDecision Task.
Proof. solve_decision. Defined.
#[global] Instance TaskCreate_eq_dec : EqDecision TaskCreate.
Proof. solve_decision. Defined.
#[global] Instance PomodoroSession_eq_dec : EqDecision PomodoroSession.
Proof. solve_decision. Defined.

(** Reading attribute [a] of a [Task]: the four declared fields have a
    value, any other name raises [AttributeError]. *)
Definition Task_getattr (t : Task) (a : string) : result pyval :=
  if decide (a = "id") then Ok (VStr (id t))
  else if decide (a = "name") then Ok (VStr (name t))
  else if decide (a = "description") then Ok (of_optional (description t))
  else if decide (a = "status") then Ok (VStr (status t))
  else Err (AttributeError "Task" a).

(** Reading attribute [a] of a [TaskCreate]. *)
Definition TaskCreate_getattr (t : TaskCreate) (a : string) : result pyval :=
  if decide (a = "title") then Ok (VStr (title t))
  else if decide (a = "description") then Ok (of_optional (tc_description t))
  else Err (AttributeError "TaskCreate" a).

(** Field constraints: [min_length=3, max_length=100], [max_length=300]
    and [pattern="^(TODO|IN_PROGRESS|DONE)$"]. *)
Definition name_ok (s : string) : bool := (3 <=? len s) && (len s <=? 100).
Definition description_ok (d : option string) : bool :=
  match d with
  | None => true
  | Some s => len s <=? 300
  end.
Definition status_ok (s : string) : bool :=
  bool_decide (s = "TODO") || bool_decide (s = "IN_PROGRESS") || bool_decide (s = "DONE").

(** Assigning attribute [a] of a [Task]: a declared field is replaced
    (the class does not validate on assignment), any other name raises
    [ValueError].  [None] for a field of type [str] has no counterpart in
    the record and is given as an error; no handler assigns it. *)
Definition Task_setattr (t : Task) (a : string) (v : pyval) : result Task :=
  if decide (a = "id") then
    match v with
    | VStr s => Ok (mkTask s (name t) (description t) (status t))
    | VNone => Err (ValueError "Task" a)
    end
  else if decide (a = "name") then
    match v with
    | VStr s => Ok (mkTask (id t) s (description t) (status t))
    | VNone => Err (ValueError "Task" a)
    end
  else if decide (a = "description") then
    match v with
    | VStr s => Ok (mkTask (id t) (name t) (Some s) (status t))
    | VNone => Ok (mkTask (id t) (name t) None (status t))
    end
  else if decide (a = "status") then
    match v with
    | VStr s => Ok (mkTask (id t) (name t) (description t) s)
    | VNone => Err (ValueError "Task" a)
    end
  else Err (ValueError "Task" a).

(** Keyword arguments of a constructor call, in the order written. *)
Definition kwargs : Type := list (string * pyval).

Fixpoint kw_lookup (k : string) (kw : kwargs) : option pyval :=
  match kw with
  | [] => None
  | (k', v) :: rest => if decide (k' = k) then Some v else kw_lookup k rest
  end.

(** One field of a constructor call: the validated value, or nothing
    when the field is in error. *)
Definition field_id (uuid : string) (kw : kwargs) : option string :=
  match kw_lookup "id" kw with
  | None => Some uuid
  | Some (VStr s) => Some s
  | Some VNone => None
  end.

Definition field_name (kw : kwargs) : option string :=
  match kw_lookup "name" kw with
  | Some (VStr s) => if name_ok s then Some s else None
  | _ => None
  end.

Definition field_description (kw : kwargs) : option (option string) :=
  match kw_lookup "description" kw with
  | None | Some VNone => Some None
  | Some (VStr s) => if description_ok (Some s) then Some (Some s) else None
  end.

Definition field_status (kw : kwargs) : option string :=
  match kw_lookup "status" kw with
  | None => Some "TODO"
  | Some (VStr s) => if status_ok s then Some s else None
  | Some VNone => None
  end.

Definition field_errors {A : Type} (fname : string) (o : option A) : list string :=
  match o with
  | None => [fname]
  | Some _ => []
  end.

(** The constructor call of [Task] with keywords [kw]: [id] defaults to a fresh [str(uuid4())] (here [uuid]),
    [name] is required, [description] defaults to [None] and [status] to
    ["TODO"]; keywords that name no field are ignored; the fields in
    error are reported together in one [ValidationError]. *)
Definition Task_new (uuid : string) (kw : kwargs) : result Task :=
  match field_id uuid kw, field_name kw, field_description kw, field_status kw with
  | Some i, Some n, Some d, Some s => Ok (mkTask i n d s)
  | oi, on, od, os =>
      Err (ValidationError "Task"
             (field_errors "id" oi ++ field_errors "name" on ++
              field_errors "description" od ++ field_errors "status" os))
  end.

(** The constructor call of [TaskCreate] with keywords [kw]: [title] is
    required, [description] defaults to [None]. *)
Definition field_title (kw : kwargs) : option string :=
  match kw_lookup "title" kw with
  | Some (VStr s) => if name_ok s then Some s else None
  | _ => None
  end.

Definition TaskCreate_new (kw : kwargs) : result TaskCreate :=
  match field_title kw, field_description kw with
  | Some t, Some d => Ok (mkTaskCreate t d)
  | ot, od =>
      Err (ValidationError "TaskCreate"
             (field_errors "title" ot ++ field_errors "description" od))
  end.

(** ** The stores *)

Record state : Type := mkState {
  tasks : list Task;
  pomodoro_sessions : list PomodoroSession
}.

(** [tasks = []] and [pomodoro_sessions = []] at start-up. *)
Definition init_state : state := mkState [] [].

(** ** Helpers for the control structures of the handlers *)

(** [any(f(x) for x in l)]: the elements are visited in order, the first
    true one ends the visit, and an exception raised by [f] ends it too. *)
Fixpoint py_any {A : Type} (f : A → result bool) (l : list A) : result bool :=
  match l with
  | [] => Ok false
  | x :: rest =>
      match f x with
      | Err e => Err e
      | Ok true => Ok true
      | Ok false => py_any f rest
      end
  end.

(** [timedelta(minutes=m)] in microseconds. *)
Definition timedelta_minutes (m : Z) : Z := m * 60 * 1000000.

(** A Python float is kept as the expression that computes it, with the
    exact integers it is computed from: how the quotient is rounded to
    binary64 and how [sum] rounds while it adds are left to the
    interpreter.  [total_seconds d] is [td.total_seconds()] of a
    timedelta [td] of [d] microseconds, and [py_sum l] is [sum] of a
    generator that yields the items of [l] in this order. *)
Unset Elimination Schemes.
Inductive pyfloat : Type :=
| total_seconds (d : Z)
| py_sum (l : list pyfloat).
Set Elimination Schemes.

(** ** The handlers *)

Definition read_root (s : state) : result string * state :=
  (Ok "Welcome to the FastAPI ToDo and Pomodoro app!", s).

(** [create_task]: the duplicate test reads [t.title] of every stored
    task, then the new task is built with the keywords [title],
    [description] and [status]. *)
Definition create_task (uuid : string) (task : TaskCreate) (s : state)
  : result Task * state :=
  match py_any (λ t, a ← Task_getattr t "title";
                     b ← TaskCreate_getattr task "title";
                     mret (bool_decide (a = b))) (tasks s) with
  | Err e => (Err e, s)
  | Ok true => (Err DuplicateTitle_create, s)
  | Ok false =>
      match (a ← TaskCreate_getattr task "title";
             d ← TaskCreate_getattr task "description";
             Task_new uuid [("title", a); ("description", d); ("status", VStr "TODO")]) with
      | Err e => (Err e, s)
      | Ok new_task =>
          (Ok new_task, mkState (tasks s ++ [new_task]) (pomodoro_sessions s))
      end
  end.

(** [get_tasks]: [if status:] is false for [None] and for the empty string. *)
Definition get_tasks (st : option string) (s : state) : result (list Task) * state :=
  match st with
  | None => (Ok (tasks s), s)
  | Some q =>
      if decide (q = EmptyString) then (Ok (tasks s), s)
      else (Ok (filter (λ task, status task = q) (tasks s)), s)
  end.

Definition get_task (tid : string) (s : state) : result Task * state :=
  match list_find (λ task, id task = tid) (tasks s) with
  | Some (_, task) => (Ok task, s)
  | None => (Err NotFound_task, s)
  end.

(** [update_task]: [t] is the first task with the id, at index [i]; the
    two assignments mutate it where it is stored. *)
Definition update_task (tid : string) (task : TaskCreate) (s : state)
  : result Task * state :=
  match list_find (λ t, id t = tid) (tasks s) with
  | None => (Err NotFound_task, s)
  | Some (i, t) =>
      match py_any (λ other, a ← Task_getattr other "title";
                             b ← TaskCreate_getattr task "title";
                             if bool_decide (a = b)
                             then c ← Task_getattr other "id";
                                  d ← TaskCreate_getattr task "id";
                                  mret (bool_decide (c ≠ d))
                             else mret false) (tasks s) with
      | Err e => (Err e, s)
      | Ok true => (Err DuplicateTitle_update, s)
      | Ok false =>
          match (v ← TaskCreate_getattr task "title"; Task_setattr t "title" v) with
          | Err e => (Err e, s)
          | Ok t1 =>
              let s1 := mkState (<[i := t1]> (tasks s)) (pomodoro_sessions s) in
              match (v ← TaskCreate_getattr task "description";
                     Task_setattr t1 "description" v) with
              | Err e => (Err e, s1)
              | Ok t2 =>
                  (Ok t2, mkState (<[i := t2]> (tasks s)) (pomodoro_sessions s))
              end
          end
      end
  end.

Definition delete_task (tid : string) (s : state) : result string * state :=
  (Ok "Task deleted",
   mkState (filter (λ task, id task ≠ tid) (tasks s)) (pomodoro_sessions s)).

(** [create_pomodoro]: [now1] and [now2] are the values of the two calls
    of [datetime.now()], in the order of the calls. *)
Definition create_pomodoro (tid : string) (now1 now2 : Z) (s : state)
  : result PomodoroSession * state :=
  match list_find (λ task, id task = tid) (tasks s) with
  | None => (Err NotFound_task, s)
  | Some (_, task) =>
      if existsb (λ session, bool_decide (task_id session = id task)
                               && negb (completed session))
                 (pomodoro_sessions s)
      then (Err ActiveSessionExists, s)
      else
        let new_session :=
          mkPomodoroSession (id task) now1 (now2 + timedelta_minutes 25) false in
        (Ok new_session, mkState (tasks s) (pomodoro_sessions s ++ [new_session]))
  end.

Definition stop (session : PomodoroSession) : PomodoroSession :=
  mkPomodoroSession (task_id session) (start_time session) (end_time session) true.

Definition stop_pomodoro (tid : string) (s : state) : result string * state :=
  match list_find (λ session, task_id session = tid ∧ completed session = false)
                  (pomodoro_sessions s) with
  | Some (i, session) =>
      (Ok "Pomodoro session stopped",
       mkState (tasks s) (<[i := stop session]> (pomodoro_sessions s)))
  | None => (Err NotFound_session, s)
  end.

(** The loop of [get_pomodoro_stats] over the sessions, from the dict
    [stats] it has built so far. *)
Definition count_session (stats : gmap string nat) (session : PomodoroSession)
  : gmap string nat :=
  if completed session
  then <[task_id session := (default 0 (stats !! task_id session) + 1)%nat]> stats
  else stats.

Definition completed_sessions (l : list PomodoroSession) : gmap string nat :=
  fold_left count_session l ∅.

Definition total_time_spent (l : list PomodoroSession) : pyfloat :=
  py_sum (map (λ session, total_seconds (end_time session - start_time session))
              (filter (λ session, completed session = true) l)).

Definition get_pomodoro_stats (s : state)
  : result (gmap string nat * pyfloat) * state :=
  (Ok (completed_sessions (pomodoro_sessions s),
       total_time_spent (pomodoro_sessions s)), s).

(** ** The routes *)

(** A request as the framework hands it over: the JSON body of a POST or
    PUT of a task as the list of its members in the order of the text,
    path and query parameters as strings, and with a request the values
    its handler will draw from the environment. *)
Inductive request : Type :=
| GET_root
| POST_tasks (body : kwargs) (uuid : string)
| GET_tasks (st : option string)
| GET_task (tid : string)
| PUT_task (tid : string) (body : kwargs)
| DELETE_task (tid : string)
| POST_pomodoro (tid : string) (now1 now2 : Z)
| POST_pomodoro_stop (tid : string)
| GET_pomodoro_stats.

Inductive response : Type :=
| RMessage (m : string)
| RTask (t : Task)
| RTasks (l : list Task)
| RSession (p : PomodoroSession)
| RStats (completed_sessions : gmap string nat) (total_time_spent : pyfloat).

(** The dict that the JSON parser builds from the members of a body: a
    name given more than once has the value of its last member, which is
    the one that a lookup in [json_object body] finds. *)
Definition json_object (body : kwargs) : kwargs := reverse body.

(** A body parameter declared [task: TaskCreate] is built from the dict
    of the body before the handler runs; a body that does not validate
    is answered without calling the handler. *)
Definition parse_body (body : kwargs) : result TaskCreate :=
  match TaskCreate_new (json_object body) with
  | Ok task => Ok task
  | Err (ValidationError _ fields) => Err (RequestValidationError fields)
  | Err e => Err e
  end.

Definition respond {A : Type} (f : A → response) (r : result A * state)
  : result response * state :=
  (f <$> fst r, snd r).

Definition serve (r : request) (s : state) : result response * state :=
  match r with
  | GET_root => respond RMessage (read_root s)
  | POST_tasks body uuid =>
      match parse_body body with
      | Err e => (Err e, s)
      | Ok task => respond RTask (create_task uuid task s)
      end
  | GET_tasks st => respond RTasks (get_tasks st s)
  | GET_task tid => respond RTask (get_task tid s)
  | PUT_task tid body =>
      match parse_body body with
      | Err e => (Err e, s)
      | Ok task => respond RTask (update_task tid task s)
      end
  | DELETE_task tid => respond RMessage (delete_task tid s)
  | POST_pomodoro tid now1 now2 => respond RSession (create_pomodoro tid now1 now2 s)
  | POST_pomodoro_stop tid => respond RMessage (stop_pomodoro tid s)
  | GET_pomodoro_stats =>
      respond (λ p, RStats (fst p) (snd p)) (get_pomodoro_stats s)
  end.

(** The stores after a request. *)
Definition handle (r : request) (s : state) : state := snd (serve r s).

(** The stores that some sequence of requests leads to from [s0]. *)
Inductive reachable_from (s0 : state) : state → Prop :=
| reach_refl : reachable_from s0 s0
| reach_step (s : state) (r : request) :
    reachable_from s0 s → reachable_from s0 (handle r s).

Definition reachable : state → Prop := reachable_from init_state.

(** ** Invariants of the stores and quantities of the specification *)

(** A session that has not been stopped. *)
Definition active (tid : string) (session : PomodoroSession) : Prop :=
  task_id session = tid ∧ completed session = false.

#[global] Instance active_dec tid session : Decision (active tid session).
Proof. unfold active. apply _. Defined.

Definition active_count (tid : string) (l : list PomodoroSession) : nat :=
  length (filter (active tid) l).

(** At most one uncompleted session for every task id. *)
Definition at_most_one_active (s : state) : Prop :=
  ∀ tid, (active_count tid (pomodoro_sessions s) ≤ 1)%nat.

(** The number of completed sessions of a task id. *)
Definition completed_count (tid : string) (l : list PomodoroSession) : nat :=
  length (filter (λ session, task_id session = tid ∧ completed session = true) l).

(** The microseconds between start and end of the completed sessions,
    one entry for each, in the order of the collection. *)
Fixpoint completed_durations (l : list PomodoroSession) : list Z :=
  match l with
  | [] => []
  | session :: rest =>
      if completed session
      then (end_time session - start_time session) :: completed_durations rest
      else completed_durations rest
  end.

(** The length constraints of the specification on a stored task. *)
Definition valid_task (t : Task) : Prop :=
  (3 ≤ len (name t) ≤ 100) ∧
  match description t with
  | None => True
  | Some d => len d ≤ 300
  end.

(** Every stored task has the property [P]. *)
Definition every_task (P : Task → Prop) (s : state) : Prop :=
  ∀ t, t ∈ tasks s → P t.

Definition stored_tasks_valid (s : state) : Prop := every_task valid_task s.

Definition all_todo (s : state) : Prop := every_task (λ t, status t = "TODO") s.

(** Example stores used below. *)
Definition read_book : Task := mkTask "id1" "Read book" None "TODO".
Definition write_report : Task := mkTask "id2" "Write report" (Some "today") "TODO".
Definition one_task : state := mkState [read_book] [].
Definition two_tasks : state := mkState [read_book; write_report] [].

(** The field that the constructor reports besides [name] for the
    keywords of [create_task]: the description, when it is a string
    longer than 300. *)
Definition too_long (d : pyval) : list string :=
  match d with
  | VStr x => if len x <=? 300 then [] else ["description"]
  | VNone => []
  end.

(** The new session: started at the first clock reading, ending 25
    minutes after the second one. *)
Definition new_session (tid : string) (now1 now2 : Z) : PomodoroSession :=
  mkPomodoroSession tid now1 (now2 + timedelta_minutes 25) false.

(** Three sessions of one task: the first is completed, the next two are
    not; stopping completes the second and leaves the third. *)
Definition three_sessions : state :=
  mkState [read_book]
    [mkPomodoroSession "id1" 0 1500000000 true;
     mkPomodoroSession "id1" 10 1500000010 false;
     mkPomodoroSession "id1" 20 1500000020 false].

(** Two tasks share the id id1, and id1 has a running session. *)
Definition shared_id : state :=
  mkState [read_book; write_report; mkTask "id1" "Read paper" None "TODO"]
          [mkPomodoroSession "id1" 0 1500000000 false].

(** A body the specification asks to reject: no title string of length
    3 to 100, or a description string longer than 300. *)
Definition invalid_body (body : kwargs) : Prop :=
  (∀ t, kw_lookup "title" (json_object body) = Some (VStr t) →
        ¬ (3 ≤ len t ≤ 100)) ∨
  (∃ d, kw_lookup "description" (json_object body) = Some (VStr d) ∧ 300 < len d).

(** The counts of a stats dict, added up. *)
Definition count_total (m : gmap string nat) : nat :=
  map_fold (λ _ v acc, (v + acc)%nat) 0%nat m.

(** Stores whose tasks have different statuses. *)
Definition file_taxes : Task := mkTask "id3" "File taxes" None "DONE".
Definition mixed_status : state :=
  mkState [read_book; file_taxes; write_report] [].

(** A running session whose task is not stored (any more). *)
Definition orphan_session : state :=
  mkState [write_report] [mkPomodoroSession "id1" 0 1500000000 false].

(** ** create_task *)

Lemma Task_getattr_title (t : Task) :
  Task_getattr t "title" = Err (AttributeError "Task" "title").
Proof. reflexivity. Qed.

Lemma TaskCreate_getattr_id (task : TaskCreate) :
  TaskCreate_getattr task "id" = Err (AttributeError "TaskCreate" "id").
Proof. reflexivity. Qed.

(** The keywords that [create_task] passes name no [name]: the call
    raises, whatever the title and the description are. *)
Lemma Task_new_without_name (uuid : string) (a d : pyval) :
  Task_new uuid [("title", a); ("description", d); ("status", VStr "TODO")]
  = Err (ValidationError "Task" ("name" :: too_long d)).
Proof.
  destruct d as [|d]; [reflexivity|].
  cbv -[len Z.leb]. destruct (len d <=? 300); reflexivity.
Qed.

Lemma create_task_empty_store (uuid : string) (task : TaskCreate) (s : state) :
  tasks s = [] →
  create_task uuid task s
  = (Err (ValidationError "Task"
            ("name" :: too_long (of_optional (tc_description task)))), s).
Proof.
  intros Hnil. unfold create_task. rewrite Hnil. cbn [py_any].
  change (TaskCreate_getattr task "title") with (Ok (A:=pyval) (VStr (title task))).
  change (TaskCreate_getattr task "description")
    with (Ok (A:=pyval) (of_optional (tc_description task))).
  cbn [mbind result_bind]. by rewrite Task_new_without_name.
Qed.

Lemma create_task_nonempty_store (uuid : string) (task : TaskCreate) (s : state) :
  tasks s ≠ [] →
  create_task uuid task s = (Err (AttributeError "Task" "title"), s).
Proof.
  intros Hne. unfold create_task.
  destruct (tasks s) as [|t l]; [done|]. reflexivity.
Qed.

(** [create_task] raises in every store: it never returns a task, never
    answers with its own duplicate-title error, and stores nothing. *)
Lemma create_task_always_raises (uuid : string) (task : TaskCreate) (s : state) :
  ∃ e, create_task uuid task s = (Err e, s) ∧ e ≠ DuplicateTitle_create.
Proof.
  destruct (decide (tasks s = [])) as [Hnil|Hne].
  - eexists; split; [by apply create_task_empty_store|done].
  - eexists; split; [by apply create_task_nonempty_store|done].
Qed.

(** C1.  The code at the inputs where the claim fails: with no task
    stored, creating "Write report" raises the [ValidationError] of the
    [Task] constructor (no [name] is passed) and stores nothing, where the
    claim has the creation succeed; with a task named "Read book" stored,
    creating "Read book" raises [AttributeError] on [t.title], where the
    claim has it fail with the duplicate-title error. *)
Theorem create_task_raises_on_new_and_on_existing_title :
  create_task "u1" (mkTaskCreate "Write report" None) init_state
  = (Err (ValidationError "Task" ["name"]), init_state) ∧
  create_task "u2" (mkTaskCreate "Read book" None) one_task
  = (Err (AttributeError "Task" "title"), one_task).
Proof.
  split.
  - by rewrite create_task_empty_store.
  - by rewrite create_task_nonempty_store.
Qed.

(** ** update_task *)

Lemma find_task_None (tid : string) (l : list Task) :
  (∀ t, t ∈ l → id t ≠ tid) → list_find (λ t, id t = tid) l = None.
Proof.
  intros Hall. apply list_find_None, Forall_forall. exact Hall.
Qed.

Lemma find_task_Some (tid : string) (l : list Task) (t : Task) :
  t ∈ l → id t = tid →
  ∃ i t', list_find (λ t, id t = tid) l = Some (i, t') ∧ t' ∈ l ∧ id t' = tid.
Proof.
  intros Hin Hid.
  destruct (list_find_elem_of (λ t, id t = tid) l t Hin Hid) as [[i t'] Hfind].
  exists i, t'. split; [done|].
  apply list_find_Some in Hfind as (Hlook & Hid' & _).
  split; [by eapply list_elem_of_lookup_2|done].
Qed.

Lemma update_task_not_found (tid : string) (task : TaskCreate) (s : state) :
  (∀ t, t ∈ tasks s → id t ≠ tid) →
  update_task tid task s = (Err NotFound_task, s).
Proof.
  intros Hall. unfold update_task. by rewrite find_task_None.
Qed.

(** When the id is found, the uniqueness test reads [other.title] of the
    first stored task and raises. *)
Lemma update_task_found_raises (tid : string) (task : TaskCreate) (s : state) (t : Task) :
  t ∈ tasks s → id t = tid →
  update_task tid task s = (Err (AttributeError "Task" "title"), s).
Proof.
  intros Hin Hid. unfold update_task.
  destruct (find_task_Some tid (tasks s) t Hin Hid) as (i & t' & -> & _ & _).
  destruct (tasks s) as [|t0 l]; [by apply elem_of_nil in Hin|]. reflexivity.
Qed.

Lemma update_task_stores (tid : string) (task : TaskCreate) (s : state) :
  snd (update_task tid task s) = s.
Proof.
  destruct (decide (Exists (λ t, id t = tid) (tasks s))) as [Hex|Hno].
  - apply Exists_exists in Hex as (t & Hin & Hid).
    by rewrite (update_task_found_raises tid task s t).
  - rewrite update_task_not_found; [done|].
    intros t Hin Hid. apply Hno, Exists_exists. eauto.
Qed.

(** C3.  The code at the inputs where the claim fails, with the tasks
    "Read book" (id1) and "Write report" (id2) stored: updating id1 to its
    own title, to a title no task has, and to the title of id2 all raise
    [AttributeError] on [other.title] and change nothing, where the claim
    has the first two succeed and the third fail with the duplicate-title
    error. *)
Theorem update_task_raises_when_id_is_found :
  update_task "id1" (mkTaskCreate "Read book" (Some "chapter 2")) two_tasks
  = (Err (AttributeError "Task" "title"), two_tasks) ∧
  update_task "id1" (mkTaskCreate "Read paper" None) two_tasks
  = (Err (AttributeError "Task" "title"), two_tasks) ∧
  update_task "id1" (mkTaskCreate "Write report" None) two_tasks
  = (Err (AttributeError "Task" "title"), two_tasks).
Proof.
  assert (Hin : read_book ∈ tasks two_tasks) by apply list_elem_of_here.
  split_and!; by apply (update_task_found_raises _ _ _ read_book).
Qed.

(** ** create_pomodoro *)

Lemma existsb_active (tid : string) (l : list PomodoroSession) :
  existsb (λ session, bool_decide (task_id session = tid) && negb (completed session)) l
  = bool_decide (Exists (active tid) l).
Proof.
  induction l as [|x l IH]; [done|].
  cbn [existsb]. rewrite IH.
  destruct (decide (active tid x)) as [[Ht Hc]|Hn].
  - rewrite Hc, (bool_decide_eq_true_2 _ Ht). cbn.
    symmetry. apply bool_decide_eq_true_2, Exists_cons_hd. by split.
  - transitivity (bool_decide (Exists (active tid) l)).
    + destruct (decide (task_id x = tid)) as [Ht|Ht].
      * destruct (completed x) eqn:Hc; [by rewrite andb_false_r|].
        by destruct Hn.
      * by rewrite (bool_decide_eq_false_2 _ Ht).
    + apply bool_decide_ext. rewrite Exists_cons. tauto.
Qed.

Lemma create_pomodoro_not_found (tid : string) (now1 now2 : Z) (s : state) :
  (∀ t, t ∈ tasks s → id t ≠ tid) →
  create_pomodoro tid now1 now2 s = (Err NotFound_task, s).
Proof.
  intros Hall. unfold create_pomodoro. by rewrite find_task_None.
Qed.

Lemma create_pomodoro_active_exists
    (tid : string) (now1 now2 : Z) (s : state) (t : Task) (x : PomodoroSession) :
  t ∈ tasks s → id t = tid →
  x ∈ pomodoro_sessions s → active tid x →
  create_pomodoro tid now1 now2 s = (Err ActiveSessionExists, s).
Proof.
  intros Hin Hid Hx Hact. unfold create_pomodoro.
  destruct (find_task_Some tid (tasks s) t Hin Hid) as (i & t' & -> & _ & ->).
  rewrite existsb_active, bool_decide_eq_true_2; [done|].
  apply Exists_exists. eauto.
Qed.

Lemma create_pomodoro_starts
    (tid : string) (now1 now2 : Z) (s : state) (t : Task) :
  t ∈ tasks s → id t = tid →
  (∀ x, x ∈ pomodoro_sessions s → ¬ active tid x) →
  create_pomodoro tid now1 now2 s
  = (Ok (new_session tid now1 now2),
     mkState (tasks s) (pomodoro_sessions s ++ [new_session tid now1 now2])).
Proof.
  intros Hin Hid Hnone. unfold create_pomodoro.
  destruct (find_task_Some tid (tasks s) t Hin Hid) as (i & t' & -> & _ & ->).
  rewrite existsb_active, bool_decide_eq_false_2; [done|].
  intros (x & Hx & Hact)%Exists_exists. by eapply Hnone.
Qed.

(** What a successful [create_pomodoro] tells about the stores before. *)
Lemma create_pomodoro_Ok_inv
    (tid : string) (now1 now2 : Z) (s s1 : state) (p : PomodoroSession) :
  create_pomodoro tid now1 now2 s = (Ok p, s1) →
  (∃ t, t ∈ tasks s ∧ id t = tid) ∧
  (∀ x, x ∈ pomodoro_sessions s → ¬ active tid x) ∧
  p = new_session tid now1 now2 ∧
  s1 = mkState (tasks s) (pomodoro_sessions s ++ [p]).
Proof.
  unfold create_pomodoro.
  destruct (list_find _ (tasks s)) as [[i t]|] eqn:Hfind; [|done].
  apply list_find_Some in Hfind as (Hlook & Hid & _).
  rewrite Hid, existsb_active. case_bool_decide as Hex; [done|].
  intros [= <- <-]. split_and!; [|by intros x Hx Hact; apply Hex, Exists_exists; eauto|done..].
  exists t. split; [by eapply list_elem_of_lookup_2|done].
Qed.

(** C2.  The code at an input where the claim fails: task id1 is stored,
    no session is, and the two clock readings of the handler are 0 and 1
    microseconds.  The session is created with [start_time = 0] and
    [end_time] 25 minutes after the second reading, which is not
    [start_time] plus 25 minutes. *)
Theorem create_pomodoro_end_time_uses_second_clock_reading :
  let p := mkPomodoroSession "id1" 0 1500000001 false in
  create_pomodoro "id1" 0 1 one_task = (Ok p, mkState [read_book] [p]) ∧
  end_time p ≠ start_time p + timedelta_minutes 25.
Proof.
  split; [reflexivity|]. cbn. unfold timedelta_minutes. lia.
Qed.

(** ** stop_pomodoro *)

(** The test of the loop is [active]. *)
Lemma stop_pomodoro_find (tid : string) (s : state) :
  stop_pomodoro tid s
  = match list_find (active tid) (pomodoro_sessions s) with
    | Some (i, session) =>
        (Ok "Pomodoro session stopped",
         mkState (tasks s) (<[i := stop session]> (pomodoro_sessions s)))
    | None => (Err NotFound_session, s)
    end.
Proof. reflexivity. Qed.

Lemma stop_pomodoro_not_found (tid : string) (s : state) :
  (∀ x, x ∈ pomodoro_sessions s → ¬ active tid x) →
  stop_pomodoro tid s = (Err NotFound_session, s).
Proof.
  intros Hnone. rewrite stop_pomodoro_find.
  replace (list_find (active tid) (pomodoro_sessions s))
    with (@None (nat * PomodoroSession)); [done|].
  symmetry. apply list_find_None, Forall_forall. exact Hnone.
Qed.

Lemma stop_pomodoro_at (tid : string) (s : state)
    (pre post : list PomodoroSession) (y : PomodoroSession) :
  pomodoro_sessions s = pre ++ y :: post →
  (∀ z, z ∈ pre → ¬ active tid z) → active tid y →
  stop_pomodoro tid s
  = (Ok "Pomodoro session stopped", mkState (tasks s) (pre ++ stop y :: post)).
Proof.
  intros Hsplit Hpre Hy. rewrite stop_pomodoro_find.
  assert (Hfind : list_find (active tid) (pomodoro_sessions s) = Some (length pre, y)).
  { apply list_find_Some. rewrite Hsplit. split_and!.
    - by rewrite list_lookup_middle.
    - done.
    - intros j z Hj Hlt. apply Hpre.
      rewrite lookup_app_l in Hj by done. by eapply list_elem_of_lookup_2. }
  rewrite Hfind, Hsplit.
  replace (length pre) with (length pre + 0)%nat by lia.
  by rewrite insert_app_r.
Qed.

(** The first uncompleted session of [tid], when there is one. *)
Lemma first_active_split (tid : string) (l : list PomodoroSession) (x : PomodoroSession) :
  x ∈ l → active tid x →
  ∃ pre y post, l = pre ++ y :: post ∧ (∀ z, z ∈ pre → ¬ active tid z) ∧ active tid y.
Proof.
  intros Hin Hact.
  destruct (list_find_elem_of (active tid) l x Hin Hact) as [[i y] Hfind].
  apply list_find_Some in Hfind as (Hlook & Hy & Hleast).
  exists (take i l), y, (drop (S i) l). split_and!; [|  |done].
  - by rewrite take_drop_middle.
  - intros z (j & Hj)%list_elem_of_lookup_1.
    apply lookup_take_Some in Hj as [Hj Hlt]. by eapply Hleast.
Qed.

Lemma stop_pomodoro_inv (tid : string) (s s1 : state) (r : result string) :
  stop_pomodoro tid s = (r, s1) →
  (r = Err NotFound_session ∧ s1 = s ∧ ∀ x, x ∈ pomodoro_sessions s → ¬ active tid x) ∨
  (r = Ok "Pomodoro session stopped" ∧
   ∃ pre y post, pomodoro_sessions s = pre ++ y :: post ∧
     (∀ z, z ∈ pre → ¬ active tid z) ∧ active tid y ∧
     s1 = mkState (tasks s) (pre ++ stop y :: post)).
Proof.
  intros Hrun.
  destruct (decide (Exists (active tid) (pomodoro_sessions s))) as [Hex|Hno].
  - right. apply Exists_exists in Hex as (x & Hin & Hact).
    destruct (first_active_split tid _ x Hin Hact) as (pre & y & post & Hs & Hpre & Hy).
    rewrite (stop_pomodoro_at tid s pre post y Hs Hpre Hy) in Hrun.
    injection Hrun as <- <-. split; [done|]. by exists pre, y, post.
  - left. rewrite stop_pomodoro_not_found in Hrun.
    + injection Hrun as <- <-. split_and!; [done..|].
      intros x Hin Hact. apply Hno, Exists_exists. eauto.
    + intros x Hin Hact. apply Hno, Exists_exists. eauto.
Qed.

(** C6.  [stop_pomodoro] answers 404 and changes nothing when the task id
    has no uncompleted session, as in the stores at start-up; otherwise
    it completes the first uncompleted session of the task id in the
    order of the collection, leaves every other session and the tasks as
    they are, and returns its confirmation. *)
Theorem stop_pomodoro_completes_first_active (tid : string) (s : state) :
  stop_pomodoro tid init_state = (Err NotFound_session, init_state) ∧
  ((∀ x, x ∈ pomodoro_sessions s → ¬ active tid x) →
   stop_pomodoro tid s = (Err NotFound_session, s)) ∧
  (∀ x, x ∈ pomodoro_sessions s → active tid x →
   ∃ pre y post,
     pomodoro_sessions s = pre ++ y :: post ∧
     (∀ z, z ∈ pre → ¬ active tid z) ∧ active tid y ∧
     completed (stop y) = true ∧ task_id (stop y) = task_id y ∧
     start_time (stop y) = start_time y ∧ end_time (stop y) = end_time y ∧
     stop_pomodoro tid s
     = (Ok "Pomodoro session stopped", mkState (tasks s) (pre ++ stop y :: post))).
Proof.
  split_and!.
  - reflexivity.
  - apply stop_pomodoro_not_found.
  - intros x Hin Hact.
    destruct (first_active_split tid _ x Hin Hact) as (pre & y & post & Hs & Hpre & Hy).
    exists pre, y, post. split_and!; try done.
    by apply stop_pomodoro_at.
Qed.

Lemma stop_pomodoro_completes_first_active_witness :
  mkPomodoroSession "id1" 20 1500000020 false ∈ pomodoro_sessions three_sessions ∧
  active "id1" (mkPomodoroSession "id1" 20 1500000020 false) ∧
  ∃ pre y post,
    pomodoro_sessions three_sessions = pre ++ y :: post ∧
    stop_pomodoro "id1" three_sessions
    = (Ok "Pomodoro session stopped", mkState [read_book] (pre ++ stop y :: post)).
Proof.
  assert (Hin : mkPomodoroSession "id1" 20 1500000020 false
                ∈ pomodoro_sessions three_sessions).
  { apply list_elem_of_In. simpl. tauto. }
  assert (Hact : active "id1" (mkPomodoroSession "id1" 20 1500000020 false)).
  { split; reflexivity. }
  split; [exact Hin|]. split; [exact Hact|].
  destruct (proj2 (proj2 (stop_pomodoro_completes_first_active "id1" three_sessions))
              _ Hin Hact)
    as (pre & y & post & Hs & _ & _ & _ & _ & _ & _ & Hrun).
  exists pre, y, post. split; [exact Hs|exact Hrun].
Defined.

(** ** What a request does to the two collections *)

Lemma create_task_stores (uuid : string) (task : TaskCreate) (s : state) :
  snd (create_task uuid task s) = s.
Proof.
  destruct (create_task_always_raises uuid task s) as (e & -> & _). done.
Qed.

Lemma create_pomodoro_inv
    (tid : string) (now1 now2 : Z) (s s1 : state) (r : result PomodoroSession) :
  create_pomodoro tid now1 now2 s = (r, s1) →
  (∃ e, r = Err e ∧ s1 = s) ∨
  (r = Ok (new_session tid now1 now2) ∧
   (∀ x, x ∈ pomodoro_sessions s → ¬ active tid x) ∧
   s1 = mkState (tasks s) (pomodoro_sessions s ++ [new_session tid now1 now2])).
Proof.
  destruct r as [p|e]; intros Hrun.
  - right. apply create_pomodoro_Ok_inv in Hrun as (_ & Hnone & -> & ->). done.
  - left. exists e. split; [done|]. revert Hrun. unfold create_pomodoro.
    destruct (list_find _ (tasks s)) as [[i t]|]; [|congruence].
    destruct (existsb _ _); congruence.
Qed.

(** The task collection after a request is the one before, or the one
    before without the tasks of one id. *)
Lemma handle_tasks (r : request) (s : state) :
  tasks (handle r s) = tasks s ∨
  ∃ tid, tasks (handle r s) = filter (λ task, id task ≠ tid) (tasks s).
Proof.
  destruct r as [|body uuid|st|tid|tid body|tid|tid n1 n2|tid|]; unfold handle; cbn.
  - by left.
  - left. destruct (parse_body body); cbn; [by rewrite create_task_stores|done].
  - left. destruct st as [q|]; cbn; [by destruct (decide (q = EmptyString))|done].
  - left. unfold get_task. by destruct (list_find _ _) as [[??]|].
  - left. destruct (parse_body body); cbn; [by rewrite update_task_stores|done].
  - right. by exists tid.
  - left. destruct (create_pomodoro tid n1 n2 s) as [r s1] eqn:Hrun.
    apply create_pomodoro_inv in Hrun as [(e & _ & ->)|(_ & _ & ->)]; done.
  - left. destruct (stop_pomodoro tid s) as [r s1] eqn:Hrun.
    apply stop_pomodoro_inv in Hrun
      as [(_ & -> & _)|(_ & pre & y & post & _ & _ & _ & ->)]; done.
  - by left.
Qed.

(** The session collection after a request is the one before, or has one
    new uncompleted session at its end for a task id that had none, or
    has one uncompleted session completed where it stands. *)
Lemma handle_sessions (r : request) (s : state) :
  pomodoro_sessions (handle r s) = pomodoro_sessions s ∨
  (∃ tid now1 now2,
     (∀ x, x ∈ pomodoro_sessions s → ¬ active tid x) ∧
     pomodoro_sessions (handle r s)
     = pomodoro_sessions s ++ [new_session tid now1 now2]) ∨
  (∃ tid pre y post,
     pomodoro_sessions s = pre ++ y :: post ∧ active tid y ∧
     pomodoro_sessions (handle r s) = pre ++ stop y :: post).
Proof.
  destruct r as [|body uuid|st|tid|tid body|tid|tid n1 n2|tid|]; unfold handle; cbn.
  - by left.
  - left. destruct (parse_body body); cbn; [by rewrite create_task_stores|done].
  - left. destruct st as [q|]; cbn; [by destruct (decide (q = EmptyString))|done].
  - left. unfold get_task. by destruct (list_find _ _) as [[??]|].
  - left. destruct (parse_body body); cbn; [by rewrite update_task_stores|done].
  - by left.
  - destruct (create_pomodoro tid n1 n2 s) as [r s1] eqn:Hrun.
    apply create_pomodoro_inv in Hrun as [(e & _ & ->)|(_ & Hnone & ->)].
    + by left.
    + right; left. by exists tid, n1, n2.
  - destruct (stop_pomodoro tid s) as [r s1] eqn:Hrun.
    apply stop_pomodoro_inv in Hrun
      as [(_ & -> & _)|(_ & pre & y & post & Hs & _ & Hy & ->)].
    + by left.
    + right; right. by exists tid, pre, y, post.
  - by left.
Qed.

(** ** At most one uncompleted session per task *)

Lemma active_count_app (tid : string) (l1 l2 : list PomodoroSession) :
  active_count tid (l1 ++ l2) = (active_count tid l1 + active_count tid l2)%nat.
Proof. unfold active_count. by rewrite filter_app, length_app. Qed.

Lemma active_count_cons (tid : string) (x : PomodoroSession) (l : list PomodoroSession) :
  active_count tid (x :: l)
  = ((if decide (active tid x) then 1 else 0) + active_count tid l)%nat.
Proof.
  unfold active_count. rewrite filter_cons. by destruct (decide (active tid x)).
Qed.

Lemma active_count_zero (tid : string) (l : list PomodoroSession) :
  active_count tid l = 0%nat ↔ ∀ x, x ∈ l → ¬ active tid x.
Proof.
  unfold active_count. split.
  - intros Hlen x Hin Hact. apply nil_length_inv in Hlen.
    by eapply filter_nil_not_elem_of.
  - intros Hnone. destruct (filter (active tid) l) as [|x l'] eqn:Hf; [done|].
    assert (Hx : x ∈ filter (active tid) l) by (rewrite Hf; apply list_elem_of_here).
    apply list_elem_of_filter in Hx as [Hact Hin]. by destruct (Hnone x Hin).
Qed.

Lemma stop_not_active (tid : string) (y : PomodoroSession) : ¬ active tid (stop y).
Proof. by intros [_ Hc]. Qed.

Lemma init_at_most_one_active : at_most_one_active init_state.
Proof. intros tid. cbn. lia. Qed.

(** Every request keeps the invariant, from any stores that have it. *)
Lemma handle_at_most_one_active (r : request) (s : state) :
  at_most_one_active s → at_most_one_active (handle r s).
Proof.
  intros Hinv tid. specialize (Hinv tid).
  destruct (handle_sessions r s)
    as [->|[(tid' & n1 & n2 & Hnone & ->)|(tid' & pre & y & post & Hs & Hy & ->)]].
  - done.
  - rewrite active_count_app, active_count_cons.
    destruct (decide (active tid (new_session tid' n1 n2))) as [[Heq _]|_].
    + cbn in Heq. subst tid'. apply active_count_zero in Hnone.
      rewrite Hnone. cbn. lia.
    + cbn. lia.
  - rewrite Hs, active_count_app, active_count_cons in Hinv.
    rewrite active_count_app, active_count_cons.
    destruct (decide (active tid (stop y))) as [Hact|_];
      [by apply stop_not_active in Hact|].
    destruct (decide (active tid y)); lia.
Qed.

Lemma reachable_at_most_one_active (s0 s : state) :
  at_most_one_active s0 → reachable_from s0 s → at_most_one_active s.
Proof.
  intros Hinit Hreach. induction Hreach as [|s r _ IH]; [done|].
  by apply handle_at_most_one_active.
Qed.

(** Starting twice in a row: the second start finds the session of the
    first. *)
Lemma create_pomodoro_twice
    (tid : string) (n1 n2 m1 m2 : Z) (s s1 : state) (p : PomodoroSession) :
  create_pomodoro tid n1 n2 s = (Ok p, s1) →
  create_pomodoro tid m1 m2 s1 = (Err ActiveSessionExists, s1).
Proof.
  intros ((t & Hin & Hid) & _ & -> & ->)%create_pomodoro_Ok_inv.
  apply (create_pomodoro_active_exists _ _ _ _ t (new_session tid n1 n2)); try done.
  cbn. apply elem_of_app. right. apply list_elem_of_here.
Qed.

(** Stopping the one uncompleted session of a stored task makes a start
    possible again. *)
Lemma create_pomodoro_after_stop
    (tid : string) (n1 n2 : Z) (s s1 : state) (m : string) :
  at_most_one_active s →
  (∃ t, t ∈ tasks s ∧ id t = tid) →
  stop_pomodoro tid s = (Ok m, s1) →
  ∃ s2, create_pomodoro tid n1 n2 s1
        = (Ok (new_session tid n1 n2), s2) ∧
        pomodoro_sessions s2 = pomodoro_sessions s1 ++ [new_session tid n1 n2].
Proof.
  intros Hinv (t & Hin & Hid) Hrun.
  apply stop_pomodoro_inv in Hrun
    as [(? & _)|(_ & pre & y & post & Hs & Hpre & Hy & ->)]; [done|].
  specialize (Hinv tid). rewrite Hs, active_count_app, active_count_cons in Hinv.
  rewrite decide_True in Hinv by done.
  assert (Hpost : active_count tid post = 0%nat) by lia.
  rewrite (create_pomodoro_starts tid n1 n2 _ t); [by eexists|done..|].
  cbn. intros x [Hx|Hx]%elem_of_app; [by apply Hpre|].
  apply elem_of_cons in Hx as [->|Hx]; [apply stop_not_active|].
  by apply (proj1 (active_count_zero tid post)).
Qed.

Lemma create_pomodoro_stop_create
    (tid : string) (n1 n2 m1 m2 : Z) (s s1 : state) (p : PomodoroSession) :
  create_pomodoro tid n1 n2 s = (Ok p, s1) →
  ∃ s2 s3,
    stop_pomodoro tid s1 = (Ok "Pomodoro session stopped", s2) ∧
    create_pomodoro tid m1 m2 s2 = (Ok (new_session tid m1 m2), s3).
Proof.
  intros ((t & Hin & Hid) & Hnone & -> & ->)%create_pomodoro_Ok_inv.
  eexists _, _. split.
  - apply (stop_pomodoro_at tid _ (pomodoro_sessions s) [] (new_session tid n1 n2));
      [reflexivity|exact Hnone|by split].
  - apply (create_pomodoro_starts _ _ _ _ t); [done..|].
    cbn. intros x [Hx|Hx]%elem_of_app; [by apply Hnone|].
    apply list_elem_of_singleton in Hx as ->. apply stop_not_active.
Qed.

(** C4.  From stores with at most one uncompleted session per task id,
    as the empty stores at start-up are ([init_at_most_one_active]),
    every sequence of requests leads to stores with at most one
    uncompleted session per task id.  There, a start that follows a
    successful start of the same task id answers that an active session
    exists and changes nothing; a stop after the successful start
    succeeds and the start after it succeeds again; and when a stop
    succeeds for a stored task, the next start of that task succeeds. *)
Theorem single_active_session_per_task (s0 s : state) :
  at_most_one_active s0 → reachable_from s0 s →
  at_most_one_active s ∧
  (∀ tid n1 n2 p s1,
     create_pomodoro tid n1 n2 s = (Ok p, s1) →
     ∀ m1 m2, create_pomodoro tid m1 m2 s1 = (Err ActiveSessionExists, s1)) ∧
  (∀ tid n1 n2 p s1,
     create_pomodoro tid n1 n2 s = (Ok p, s1) →
     ∀ m1 m2, ∃ s2 s3,
       stop_pomodoro tid s1 = (Ok "Pomodoro session stopped", s2) ∧
       create_pomodoro tid m1 m2 s2 = (Ok (new_session tid m1 m2), s3)) ∧
  (∀ tid m s1,
     (∃ t, t ∈ tasks s ∧ id t = tid) →
     stop_pomodoro tid s = (Ok m, s1) →
     ∀ n1 n2, ∃ s2,
       create_pomodoro tid n1 n2 s1 = (Ok (new_session tid n1 n2), s2) ∧
       pomodoro_sessions s2 = pomodoro_sessions s1 ++ [new_session tid n1 n2]) ∧
  (∀ s', reachable s' → at_most_one_active s').
Proof.
  intros Hinit Hreach.
  assert (Hinv : at_most_one_active s) by by eapply reachable_at_most_one_active.
  split_and!.
  - exact Hinv.
  - intros tid n1 n2 p s1 Hrun m1 m2. by eapply create_pomodoro_twice.
  - intros tid n1 n2 p s1 Hrun m1 m2. by eapply create_pomodoro_stop_create.
  - intros tid m s1 Htask Hrun n1 n2. by eapply create_pomodoro_after_stop.
  - intros s' Hreach'.
    exact (reachable_at_most_one_active init_state s' init_at_most_one_active Hreach').
Qed.

Lemma single_active_session_per_task_witness :
  let s := handle (POST_pomodoro "id1" 0 1) one_task in
  at_most_one_active one_task ∧ reachable_from one_task s ∧
  at_most_one_active s ∧
  create_pomodoro "id1" 7 8 s = (Err ActiveSessionExists, s).
Proof.
  intros s.
  assert (Hinit : at_most_one_active one_task) by (intros tid; cbn; lia).
  assert (Hreach : reachable_from one_task s) by apply reach_step, reach_refl.
  split; [exact Hinit|]. split; [exact Hreach|].
  split.
  - exact (proj1 (single_active_session_per_task one_task s Hinit Hreach)).
  - apply (proj1 (proj2 (single_active_session_per_task one_task one_task Hinit
                           (reach_refl one_task)))
             "id1" 0 1 (new_session "id1" 0 1)).
    reflexivity.
Defined.

(** ** get_pomodoro_stats *)

Lemma completed_count_cons (k : string) (x : PomodoroSession) (l : list PomodoroSession) :
  completed_count k (x :: l)
  = ((if decide (task_id x = k ∧ completed x = true) then 1 else 0)
     + completed_count k l)%nat.
Proof.
  unfold completed_count. rewrite filter_cons. by case_decide.
Qed.

(** The loop from a dict [m]: the entry of [k] grows by the number of
    completed sessions of [k], and is left alone when there is none. *)
Lemma count_sessions_lookup (l : list PomodoroSession) (m : gmap string nat) (k : string) :
  fold_left count_session l m !! k
  = if decide (completed_count k l = 0%nat) then m !! k
    else Some (default 0%nat (m !! k) + completed_count k l)%nat.
Proof.
  revert m. induction l as [|x l IH]; intros m; [done|].
  cbn [fold_left]. rewrite IH, completed_count_cons. unfold count_session.
  destruct (completed x) eqn:Hc.
  - destruct (decide (task_id x = k)) as [->|Hne].
    + rewrite lookup_insert_eq.
      destruct (decide (k = k ∧ true = true)) as [_|Hn]; [|by destruct Hn].
      rewrite (decide_False (P := (1 + _ = 0)%nat)) by lia.
      simpl. case_decide as Hz; [rewrite Hz|]; f_equal; lia.
    + rewrite lookup_insert_ne by done.
      destruct (decide (task_id x = k ∧ true = true)) as [[? _]|_]; done.
  - destruct (decide (task_id x = k ∧ false = true)) as [[_ ?]|_]; done.
Qed.

Lemma completed_sessions_lookup (l : list PomodoroSession) (k : string) :
  completed_sessions l !! k
  = if decide (completed_count k l = 0%nat) then None else Some (completed_count k l).
Proof.
  unfold completed_sessions. rewrite count_sessions_lookup, lookup_empty.
  by case_decide.
Qed.

Lemma has_completed_session (k : string) (l : list PomodoroSession) :
  completed_count k l ≠ 0%nat ↔ ∃ x, x ∈ l ∧ task_id x = k ∧ completed x = true.
Proof.
  unfold completed_count. split.
  - intros Hlen.
    destruct (filter (λ x, task_id x = k ∧ completed x = true) l) as [|x l'] eqn:Hf;
      [done|].
    assert (Hx : x ∈ filter (λ x, task_id x = k ∧ completed x = true) l)
      by (rewrite Hf; apply list_elem_of_here).
    apply list_elem_of_filter in Hx as [[Ht Hc] Hin]. eauto.
  - intros (x & Hin & Ht & Hc) Hlen. apply nil_length_inv in Hlen.
    by eapply (filter_nil_not_elem_of _ l x Hlen).
Qed.

(** The items that [sum] adds are the seconds of the durations of the
    completed sessions, one for each and in the order of the collection. *)
Lemma total_time_spent_durations (l : list PomodoroSession) :
  total_time_spent l = py_sum (total_seconds <$> completed_durations l).
Proof.
  unfold total_time_spent. f_equal.
  induction l as [|x l IH]; [done|].
  rewrite filter_cons. cbn [completed_durations].
  destruct (completed x).
  - rewrite decide_True by done. cbn. by rewrite IH.
  - rewrite decide_False by done. exact IH.
Qed.

(** C5.  [get_pomodoro_stats] returns a mapping and a total and leaves
    both collections as they are.  The mapping has an entry exactly for
    the task ids with a completed session, and the entry is the number of
    completed sessions of the task id, never 0; the total is [sum] of
    the seconds of end time minus start time, taken over the completed
    sessions and no other, one item for each in the order of the
    collection. *)
Theorem get_pomodoro_stats_counts_completed_sessions (s : state) :
  ∃ stats total,
    get_pomodoro_stats s = (Ok (stats, total), s) ∧
    (∀ k, stats !! k
          = if decide (completed_count k (pomodoro_sessions s) = 0%nat) then None
            else Some (completed_count k (pomodoro_sessions s))) ∧
    (∀ k, is_Some (stats !! k)
          ↔ ∃ x, x ∈ pomodoro_sessions s ∧ task_id x = k ∧ completed x = true) ∧
    (∀ k, stats !! k ≠ Some 0%nat) ∧
    total = py_sum (total_seconds <$> completed_durations (pomodoro_sessions s)).
Proof.
  exists (completed_sessions (pomodoro_sessions s)),
         (total_time_spent (pomodoro_sessions s)).
  split_and!.
  - reflexivity.
  - intros k. apply completed_sessions_lookup.
  - intros k. rewrite completed_sessions_lookup, <- has_completed_session.
    case_decide as Hz; [|by split].
    split; [by intros [? ?]|by intros []].
  - intros k. rewrite completed_sessions_lookup. case_decide; congruence.
  - apply total_time_spent_durations.
Qed.

(** One completed session of id1 and two running ones: id1 is counted
    once, id2 has no entry, and the total is the sum of one item, the
    seconds of 1500000000 microseconds. *)
Lemma get_pomodoro_stats_counts_completed_sessions_witness :
  ∃ stats total,
    get_pomodoro_stats three_sessions = (Ok (stats, total), three_sessions) ∧
    stats !! "id1" = Some 1%nat ∧ stats !! "id2" = None ∧
    total = py_sum [total_seconds 1500000000].
Proof.
  destruct (get_pomodoro_stats_counts_completed_sessions three_sessions)
    as (stats & total & Hrun & Hlook & _ & _ & Htotal).
  exists stats, total. split_and!.
  - exact Hrun.
  - rewrite Hlook. reflexivity.
  - rewrite Hlook. reflexivity.
  - rewrite Htotal. reflexivity.
Defined.

(** ** delete_task *)

Lemma filter_other_ids_idemp (tid : string) (l : list Task) :
  filter (λ task, id task ≠ tid) (filter (λ task, id task ≠ tid) l)
  = filter (λ task, id task ≠ tid) l.
Proof.
  induction l as [|t l IH]; [done|].
  rewrite filter_cons. case_decide as Hne; [|exact IH].
  rewrite filter_cons, decide_True by done. by rewrite IH.
Qed.

Lemma filter_split_length (tid : string) (l : list Task) :
  (length (filter (λ task, id task ≠ tid) l)
   + length (filter (λ task, id task = tid) l))%nat = length l.
Proof.
  induction l as [|t l IH]; [done|].
  rewrite !filter_cons. destruct (decide (id t = tid)) as [Heq|Hne].
  - rewrite decide_False by (intros Hn; by apply Hn). cbn. lia.
  - rewrite decide_True by done. cbn. lia.
Qed.

(** C7.  [delete_task] returns the same confirmation in every store,
    whether or not a task has the id, and a second [delete_task] of the
    same id right after returns the same response and leaves the same
    stores as the first. *)
Theorem delete_task_idempotent (tid : string) (s : state) :
  fst (delete_task tid s) = Ok "Task deleted" ∧
  delete_task tid (snd (delete_task tid s)) = delete_task tid s.
Proof.
  split; [reflexivity|].
  unfold delete_task. cbn. by rewrite filter_other_ids_idemp.
Qed.

(** C10.  After [delete_task] no stored task has the id; the tasks with
    another id are all kept, each as it was and in the order they had
    (the collection after is the one before with exactly the tasks of the
    id taken out); the sessions are the same, those of the deleted task
    included. *)
Theorem delete_task_removes_all_tasks_with_id (tid : string) (s : state) :
  let s' := snd (delete_task tid s) in
  (∀ t, t ∈ tasks s' ↔ t ∈ tasks s ∧ id t ≠ tid) ∧
  tasks s' `sublist_of` tasks s ∧
  (length (tasks s') + length (filter (λ task, id task = tid) (tasks s)))%nat
  = length (tasks s) ∧
  pomodoro_sessions s' = pomodoro_sessions s.
Proof.
  cbn. split_and!.
  - intros t. rewrite list_elem_of_filter. tauto.
  - apply sublist_filter.
  - apply filter_split_length.
  - reflexivity.
Qed.

Lemma delete_task_removes_all_tasks_with_id_witness :
  write_report ∈ tasks shared_id ∧ id write_report ≠ "id1" ∧
  write_report ∈ tasks (snd (delete_task "id1" shared_id)) ∧
  length (tasks (snd (delete_task "id1" shared_id))) = 1%nat ∧
  pomodoro_sessions (snd (delete_task "id1" shared_id))
  = [mkPomodoroSession "id1" 0 1500000000 false].
Proof.
  assert (Hin : write_report ∈ tasks shared_id).
  { apply list_elem_of_In. simpl. tauto. }
  assert (Hid : id write_report ≠ "id1") by (simpl; congruence).
  destruct (delete_task_removes_all_tasks_with_id "id1" shared_id)
    as (Hmem & _ & Hlen & Hsess).
  split; [exact Hin|]. split; [exact Hid|]. split_and!.
  - apply Hmem. split; [exact Hin|exact Hid].
  - simpl in Hlen. simpl. lia.
  - exact Hsess.
Defined.

(** ** Validation of request bodies *)

Lemma name_ok_spec (t : string) : name_ok t = true ↔ 3 ≤ len t ≤ 100.
Proof. unfold name_ok. rewrite andb_true_iff, !Z.leb_le. tauto. Qed.

(** The member that a body gives last is the one that is looked up. *)
Lemma json_object_last (body : kwargs) (k : string) (v : pyval) :
  kw_lookup k (json_object (body ++ [(k, v)])) = Some v.
Proof.
  unfold json_object. rewrite reverse_app. cbn. by rewrite decide_True.
Qed.

Lemma field_title_Some (kw : kwargs) (t : string) :
  field_title kw = Some t → 3 ≤ len t ≤ 100.
Proof.
  unfold field_title. destruct (kw_lookup "title" kw) as [[|t']|]; try done.
  destruct (name_ok t') eqn:Hname; [|done].
  intros [= <-]. by apply name_ok_spec.
Qed.

Lemma field_description_Some (kw : kwargs) (o : option string) :
  field_description kw = Some o →
  match o with
  | None => True
  | Some d => len d ≤ 300
  end.
Proof.
  unfold field_description.
  destruct (kw_lookup "description" kw) as [[|d]|]; try by intros [= <-].
  cbn. destruct (len d <=? 300) eqn:Hle; [|done].
  intros [= <-]. by apply Z.leb_le.
Qed.

Lemma parse_body_Ok (body : kwargs) (task : TaskCreate) :
  parse_body body = Ok task →
  (3 ≤ len (title task) ≤ 100) ∧
  match tc_description task with
  | None => True
  | Some d => len d ≤ 300
  end.
Proof.
  unfold parse_body, TaskCreate_new.
  destruct (field_title (json_object body)) as [t|] eqn:Ht,
           (field_description (json_object body)) as [o|] eqn:Ho; try done.
  intros [= <-]. cbn. split.
  - by eapply field_title_Some.
  - by eapply field_description_Some.
Qed.

Lemma parse_body_invalid (body : kwargs) :
  invalid_body body →
  ∃ fields, fields ≠ [] ∧ parse_body body = Err (RequestValidationError fields).
Proof.
  unfold parse_body, TaskCreate_new, invalid_body.
  generalize (json_object body). intros kw [Htitle|(d & Hd & Hlong)].
  - assert (Hnone : field_title kw = None).
    { unfold field_title. destruct (kw_lookup "title" kw) as [[|t]|]; try done.
      destruct (name_ok t) eqn:Hname; [|done].
      apply name_ok_spec in Hname. by destruct (Htitle t). }
    rewrite Hnone. destruct (field_description kw); cbn; eexists;
      (split; [|reflexivity]); done.
  - assert (Hnone : field_description kw = None).
    { unfold field_description. rewrite Hd. cbn.
      destruct (len d <=? 300) eqn:Hle; [apply Z.leb_le in Hle; lia|done]. }
    rewrite Hnone. destruct (field_title kw); cbn; eexists;
      (split; [|reflexivity]); done.
Qed.

Lemma handle_tasks_subset (r : request) (s : state) (t : Task) :
  t ∈ tasks (handle r s) → t ∈ tasks s.
Proof.
  destruct (handle_tasks r s) as [->|(tid & ->)]; [done|].
  by intros [_ ?]%list_elem_of_filter.
Qed.

Lemma reachable_tasks_subset (s0 s : state) (t : Task) :
  reachable_from s0 s → t ∈ tasks s → t ∈ tasks s0.
Proof.
  induction 1 as [|s r _ IH]; [done|].
  intros Hin. by apply IH, (handle_tasks_subset r).
Qed.

(** A property of single tasks that holds of every stored task keeps
    holding, whatever the requests are. *)
Section TaskInvariant.
Variable P : Task → Prop.

Lemma every_task_init : every_task P init_state.
Proof. intros t Hin. by apply elem_of_nil in Hin. Qed.

Lemma every_task_handle (r : request) (s : state) :
  every_task P s → every_task P (handle r s).
Proof. intros Hall t Hin. by eapply Hall, handle_tasks_subset. Qed.

Lemma every_task_reachable_from (s0 s : state) :
  every_task P s0 → reachable_from s0 s → every_task P s.
Proof. intros Hall Hreach t Hin. by eapply Hall, reachable_tasks_subset. Qed.

Lemma every_task_reachable (s : state) : reachable s → every_task P s.
Proof. apply every_task_reachable_from, every_task_init. Qed.
End TaskInvariant.

(** The claim of C8 on the status filter fails: with "Read book" stored,
    listing with the status "ARCHIVED", which is none of TODO, IN_PROGRESS
    and DONE, is not rejected; it succeeds with the empty list. *)
Lemma get_tasks_accepts_any_status :
  status_ok "ARCHIVED" = false ∧
  serve (GET_tasks (Some "ARCHIVED")) one_task = (Ok (RTasks []), one_task) ∧
  ¬ ∃ e, fst (serve (GET_tasks (Some "ARCHIVED")) one_task) = Err e.
Proof.
  split; [reflexivity|]. split; [reflexivity|]. by intros [e He].
Qed.

(** C8, as amended.  The body of a create or update request is validated
    before the handler runs: what reaches the handler has a title of
    length 3 to 100 and a description that is absent or of length at most
    300, and a body without such a title, or with a longer description,
    is answered with a validation error that names a field, the stores
    unchanged.  Lengths are counted in characters, and a member that the
    body gives more than once counts by its last value.  From stores whose tasks have a name of length 3 to 100
    and a description absent or of length at most 300, as the empty
    stores do, requests lead only to such stores.  The status given to
    the list filter is not validated: any non-empty string is accepted
    and selects the tasks whose status is equal to it. *)
Theorem bodies_validated_status_filter_not (s0 s : state) :
  stored_tasks_valid s0 → reachable_from s0 s →
  stored_tasks_valid s ∧
  (∀ body task, parse_body body = Ok task →
     (3 ≤ len (title task) ≤ 100) ∧
     match tc_description task with
     | None => True
     | Some d => len d ≤ 300
     end) ∧
  (∀ body, invalid_body body →
     ∃ fields, fields ≠ [] ∧
       (∀ uuid, serve (POST_tasks body uuid) s
                = (Err (RequestValidationError fields), s)) ∧
       (∀ tid, serve (PUT_task tid body) s
               = (Err (RequestValidationError fields), s))) ∧
  (∀ q, q ≠ EmptyString →
     serve (GET_tasks (Some q)) s
     = (Ok (RTasks (filter (λ task, status task = q) (tasks s))), s)) ∧
  (∀ s', reachable s' → stored_tasks_valid s').
Proof.
  intros Hinit Hreach. split_and!.
  - by apply (every_task_reachable_from valid_task s0).
  - apply parse_body_Ok.
  - intros body (fields & Hne & Hparse)%parse_body_invalid.
    exists fields. split; [done|]. split; intros; cbn; by rewrite Hparse.
  - intros q Hq. cbn. unfold get_tasks. by rewrite decide_False.
  - apply (every_task_reachable valid_task).
Qed.

Lemma bodies_validated_status_filter_not_witness :
  let s := handle (DELETE_task "id1") two_tasks in
  stored_tasks_valid two_tasks ∧ reachable_from two_tasks s ∧
  stored_tasks_valid s ∧
  (∃ fields,
     serve (POST_tasks [("title", VStr "Read book"); ("title", VStr "日本")] "u1") s
     = (Err (RequestValidationError fields), s)) ∧
  serve (GET_tasks (Some "ARCHIVED")) s = (Ok (RTasks []), s).
Proof.
  intros s.
  assert (Hinit : stored_tasks_valid two_tasks).
  { intros t Hin. apply list_elem_of_In in Hin. simpl in Hin.
    destruct Hin as [<-|[<-|[]]]; (split; [vm_compute; split; discriminate|]).
    - exact I.
    - vm_compute. discriminate. }
  assert (Hreach : reachable_from two_tasks s) by apply reach_step, reach_refl.
  destruct (bodies_validated_status_filter_not two_tasks s Hinit Hreach)
    as (Hvalid & _ & Hreject & Hfilter & _).
  split; [exact Hinit|]. split; [exact Hreach|]. split; [exact Hvalid|]. split.
  - destruct (Hreject [("title", VStr "Read book"); ("title", VStr "日本")])
      as (fields & _ & Hpost & _).
    + left. intros t Ht. vm_compute in Ht. injection Ht as <-.
      vm_compute. intros [Hlo _]. by apply Hlo.
    + exists fields. apply Hpost.
  - rewrite Hfilter by discriminate. reflexivity.
Defined.

(** ** The status of a task *)

(** The status of a task that the constructor returns is the one the
    call passes. *)
Lemma Task_new_status (uuid : string) (kw : kwargs) (t : Task) (st : string) :
  kw_lookup "status" kw = Some (VStr st) → Task_new uuid kw = Ok t → status t = st.
Proof.
  intros Hst. unfold Task_new, field_status. rewrite Hst.
  destruct (field_id uuid kw), (field_name kw), (field_description kw),
           (status_ok st); cbn; try done.
  by intros [= <-].
Qed.

Lemma get_tasks_no_match (q : string) (s : state) :
  q ≠ EmptyString → (∀ t, t ∈ tasks s → status t ≠ q) →
  get_tasks (Some q) s = (Ok [], s).
Proof.
  intros Hq Hnone. unfold get_tasks. rewrite decide_False by done.
  destruct (filter (λ task, status task = q) (tasks s)) as [|t l] eqn:Hf; [done|].
  assert (Ht : t ∈ filter (λ task, status task = q) (tasks s))
    by (rewrite Hf; apply list_elem_of_here).
  apply list_elem_of_filter in Ht as [Hst Hin]. by destruct (Hnone t Hin).
Qed.

(** C9.  From stores whose tasks all have the status TODO, as the empty
    stores do, requests lead only to stores whose tasks all have the
    status TODO, and there the list filtered by DONE is empty.  In any
    stores, a task stored after a request has the status TODO or has the
    id and the status of a task stored before the request;
    [update_task] leaves the ids and the statuses of the stored tasks as
    they are, position by position; and a task that the constructor
    returns for a call that passes the status TODO, as [create_task]
    does, has the status TODO. *)
Theorem status_is_never_changed (s0 s : state) :
  all_todo s0 → reachable_from s0 s →
  all_todo s ∧
  get_tasks (Some "DONE") s = (Ok [], s) ∧
  (∀ (s' : state) (r : request) (t' : Task),
     t' ∈ tasks (handle r s') →
     status t' = "TODO" ∨
     ∃ t, t ∈ tasks s' ∧ id t = id t' ∧ status t = status t') ∧
  (∀ (s' : state) (tid : string) (task : TaskCreate),
     (λ t, (id t, status t)) <$> tasks (snd (update_task tid task s'))
     = (λ t, (id t, status t)) <$> tasks s') ∧
  (∀ (uuid : string) (kw : kwargs) (t : Task),
     kw_lookup "status" kw = Some (VStr "TODO") →
     Task_new uuid kw = Ok t → status t = "TODO") ∧
  (∀ s', reachable s' → get_tasks (Some "DONE") s' = (Ok [], s')).
Proof.
  intros Hinit Hreach.
  assert (Hdone : ∀ s', all_todo s' → get_tasks (Some "DONE") s' = (Ok [], s')).
  { intros s' Htodo. apply get_tasks_no_match; [done|].
    intros t Hin. by rewrite (Htodo t Hin). }
  assert (Htodo : all_todo s)
    by by apply (every_task_reachable_from (λ t, status t = "TODO") s0).
  split_and!.
  - exact Htodo.
  - by apply Hdone.
  - intros s' r t' Hin. right. exists t'.
    split; [by eapply handle_tasks_subset|done].
  - intros s' tid task. by rewrite update_task_stores.
  - intros uuid kw t. apply Task_new_status.
  - intros s' Hreach'. apply Hdone.
    by apply (every_task_reachable (λ t, status t = "TODO")).
Qed.

Lemma status_is_never_changed_witness :
  let s := handle (PUT_task "id1" [("title", VStr "Read paper")]) two_tasks in
  all_todo two_tasks ∧ reachable_from two_tasks s ∧
  all_todo s ∧ get_tasks (Some "DONE") s = (Ok [], s).
Proof.
  intros s.
  assert (Hinit : all_todo two_tasks).
  { intros t Hin. apply list_elem_of_In in Hin. simpl in Hin.
    destruct Hin as [<-|[<-|[]]]; reflexivity. }
  assert (Hreach : reachable_from two_tasks s) by apply reach_step, reach_refl.
  destruct (status_is_never_changed two_tasks s Hinit Hreach) as (Htodo & Hdone & _).
  split; [exact Hinit|]. split; [exact Hreach|]. split; [exact Htodo|exact Hdone].
Defined.

(** * Further properties of the handlers *)

(** ** get_task and get_tasks *)

Lemma first_task_split (tid : string) (l : list Task) (t : Task) :
  t ∈ l → id t = tid →
  ∃ i pre t' post,
    list_find (λ task, id task = tid) l = Some (i, t') ∧
    l = pre ++ t' :: post ∧ (∀ u, u ∈ pre → id u ≠ tid) ∧ id t' = tid.
Proof.
  intros Hin Hid.
  destruct (list_find_elem_of (λ task, id task = tid) l t Hin Hid) as [[i t'] Hfind].
  exists i, (take i l), t', (drop (S i) l). split; [done|].
  apply list_find_Some in Hfind as (Hlook & Hid' & Hleast).
  split_and!; [by rewrite take_drop_middle| |done].
  intros u (j & Hj)%list_elem_of_lookup_1.
  apply lookup_take_Some in Hj as [Hj Hlt]. by eapply Hleast.
Qed.

(** X1.  [get_task] answers 404 when no stored task has the id, and
    otherwise returns the first stored task with the id, in the order of
    the collection; the stores are unchanged in both cases. *)
Theorem get_task_returns_first_match (tid : string) (s : state) :
  ((∀ t, t ∈ tasks s → id t ≠ tid) → get_task tid s = (Err NotFound_task, s)) ∧
  (∀ t, t ∈ tasks s → id t = tid →
   ∃ pre t' post,
     tasks s = pre ++ t' :: post ∧ (∀ u, u ∈ pre → id u ≠ tid) ∧ id t' = tid ∧
     get_task tid s = (Ok t', s)).
Proof.
  split.
  - intros Hall. unfold get_task. by rewrite find_task_None.
  - intros t Hin Hid.
    destruct (first_task_split tid _ t Hin Hid)
      as (i & pre & t' & post & Hfind & Hs & Hpre & Hid').
    exists pre, t', post. split_and!; try done.
    unfold get_task. by rewrite Hfind.
Qed.

Lemma get_task_returns_first_match_witness :
  mkTask "id1" "Read paper" None "TODO" ∈ tasks shared_id ∧
  ∃ pre t' post,
    tasks shared_id = pre ++ t' :: post ∧ (∀ u, u ∈ pre → id u ≠ "id1") ∧
    get_task "id1" shared_id = (Ok t', shared_id).
Proof.
  assert (Hin : mkTask "id1" "Read paper" None "TODO" ∈ tasks shared_id).
  { apply list_elem_of_In. simpl. tauto. }
  split; [exact Hin|].
  destruct (proj2 (get_task_returns_first_match "id1" shared_id) _ Hin eq_refl)
    as (pre & t' & post & Hs & Hpre & Hid & Hrun).
  exists pre, t', post. split; [exact Hs|]. split; [exact Hpre|exact Hrun].
Defined.

(** X2.  [get_tasks] never fails and never changes the stores.  Without
    a status, and also with the empty string as status, it returns the
    whole collection; with any other status it returns the collection
    filtered by that status: the stored tasks whose status is equal to
    it, each as often as it is stored and in the order of the
    collection. *)
Theorem get_tasks_selects_by_status (st : option string) (s : state) :
  ∃ l, get_tasks st s = (Ok l, s) ∧
       l `sublist_of` tasks s ∧
       (st = None ∨ st = Some EmptyString → l = tasks s) ∧
       (∀ q, st = Some q → q ≠ EmptyString →
             l = filter (λ task, status task = q) (tasks s) ∧
             ∀ t, t ∈ l ↔ t ∈ tasks s ∧ status t = q).
Proof.
  unfold get_tasks. destruct st as [q|].
  - destruct (decide (q = EmptyString)) as [->|Hq].
    + exists (tasks s). split_and!; [done..|]. by intros q [= <-].
    + eexists. split_and!; [done|apply sublist_filter| |].
      * intros [?|[= ?]]; done.
      * intros q' [= <-] _. split; [done|].
        intros t. rewrite list_elem_of_filter. tauto.
  - exists (tasks s). split_and!; done.
Qed.

Lemma get_tasks_selects_by_status_witness :
  get_tasks (Some "TODO") mixed_status = (Ok [read_book; write_report], mixed_status) ∧
  get_tasks (Some EmptyString) mixed_status = (Ok (tasks mixed_status), mixed_status).
Proof.
  split.
  - destruct (get_tasks_selects_by_status (Some "TODO") mixed_status)
      as (l & Hrun & _ & _ & Hfilter).
    rewrite Hrun. f_equal. f_equal.
    destruct (Hfilter "TODO" eq_refl) as [-> _]; [discriminate|reflexivity].
  - destruct (get_tasks_selects_by_status (Some EmptyString) mixed_status)
      as (l & Hrun & _ & Hall & _).
    rewrite Hrun. f_equal. f_equal. apply Hall. by right.
Defined.

(** ** create_task and update_task never store *)

(** X3.  [create_task] raises in every store and for every body, and
    leaves the stores as they are: with no task stored the constructor
    of [Task] reports the missing [name]; with a task stored the
    duplicate test raises [AttributeError] on [t.title].  It never raises
    an [HTTPException]. *)
Theorem create_task_never_stores (uuid : string) (task : TaskCreate) (s : state) :
  ∃ e, create_task uuid task s = (Err e, s) ∧
       (tasks s = [] → ∃ fields, e = ValidationError "Task" ("name" :: fields)) ∧
       (tasks s ≠ [] → e = AttributeError "Task" "title") ∧
       (∀ code detail, e ≠ HTTPException code detail).
Proof.
  destruct (decide (tasks s = [])) as [Hnil|Hne].
  - eexists. split; [by apply create_task_empty_store|].
    split_and!; [by eexists|done|done].
  - eexists. split; [by apply create_task_nonempty_store|].
    split_and!; done.
Qed.

Lemma create_task_never_stores_witness :
  tasks one_task ≠ [] ∧
  create_task "u1" (mkTaskCreate "Write report" None) one_task
  = (Err (AttributeError "Task" "title"), one_task).
Proof.
  assert (Hne : tasks one_task ≠ []) by discriminate.
  split; [exact Hne|].
  destruct (create_task_never_stores "u1" (mkTaskCreate "Write report" None) one_task)
    as (e & Hrun & _ & Hattr & _).
  rewrite Hrun. by rewrite (Hattr Hne).
Defined.

(** X4.  [update_task] raises in every store and for every body, and
    leaves the stores as they are: 404 when no stored task has the id,
    and [AttributeError] on [other.title] when one has. *)
Theorem update_task_never_stores (tid : string) (task : TaskCreate) (s : state) :
  ∃ e, update_task tid task s = (Err e, s) ∧
       ((∀ t, t ∈ tasks s → id t ≠ tid) → e = NotFound_task) ∧
       (∀ t, t ∈ tasks s → id t = tid → e = AttributeError "Task" "title").
Proof.
  destruct (decide (Exists (λ t, id t = tid) (tasks s))) as [Hex|Hno].
  - apply Exists_exists in Hex as (t & Hin & Hid).
    eexists. split; [by apply (update_task_found_raises _ _ _ t)|].
    split; [|done]. intros Hall. by destruct (Hall t Hin).
  - assert (Hall : ∀ t, t ∈ tasks s → id t ≠ tid).
    { intros t Hin Hid. apply Hno, Exists_exists. eauto. }
    eexists. split; [by apply update_task_not_found|].
    split; [done|]. intros t Hin Hid. by destruct (Hall t Hin).
Qed.

Lemma update_task_never_stores_witness :
  write_report ∈ tasks two_tasks ∧
  update_task "id2" (mkTaskCreate "Write thesis" None) two_tasks
  = (Err (AttributeError "Task" "title"), two_tasks).
Proof.
  assert (Hin : write_report ∈ tasks two_tasks).
  { apply list_elem_of_In. simpl. tauto. }
  split; [exact Hin|].
  destruct (update_task_never_stores "id2" (mkTaskCreate "Write thesis" None) two_tasks)
    as (e & Hrun & _ & Hattr).
  rewrite Hrun. by rewrite (Hattr write_report Hin eq_refl).
Defined.

(** ** What no sequence of requests does *)

Lemma handle_init (r : request) : handle r init_state = init_state.
Proof.
  destruct r as [|body uuid|st|tid|tid body|tid|tid n1 n2|tid|];
    unfold handle, serve, respond; cbn [fst snd]; try reflexivity.
  - destruct (parse_body body); cbn [fst snd]; [apply create_task_stores|done].
  - destruct st as [q|]; cbn; [by destruct (decide (q = EmptyString))|done].
  - destruct (parse_body body); cbn [fst snd]; [apply update_task_stores|done].
Qed.

(** X5.  From the empty stores of start-up no sequence of requests
    stores anything: both collections are empty in every reachable
    state, so there every start of a session answers 404 and every list
    is empty. *)
Theorem reachable_stores_stay_empty (s : state) :
  reachable s →
  s = init_state ∧
  (∀ tid now1 now2, create_pomodoro tid now1 now2 s = (Err NotFound_task, s)) ∧
  (∀ st, get_tasks st s = (Ok [], s)).
Proof.
  intros Hreach.
  assert (Hs : s = init_state).
  { induction Hreach as [|s r _ IH]; [done|]. rewrite IH. apply handle_init. }
  subst s. split_and!; [done|done|].
  intros [q|]; [|done]. unfold get_tasks. by destruct (decide (q = EmptyString)).
Qed.

Lemma reachable_stores_stay_empty_witness :
  let s := handle (POST_pomodoro "id1" 0 1)
             (handle (POST_tasks [("title", VStr "Read book")] "id1") init_state) in
  reachable s ∧ s = init_state.
Proof.
  intros s.
  assert (Hreach : reachable s) by apply reach_step, reach_step, reach_refl.
  split; [exact Hreach|].
  exact (proj1 (reachable_stores_stay_empty s Hreach)).
Defined.

(** X6.  A request that is answered with an error leaves both
    collections as they were. *)
Theorem failed_request_changes_nothing (r : request) (s s' : state) (e : exn) :
  serve r s = (Err e, s') → s' = s.
Proof.
  intros Hrun.
  assert (Hfst : fst (serve r s) = Err e) by by rewrite Hrun.
  assert (Hsnd : snd (serve r s) = s') by by rewrite Hrun.
  clear Hrun. subst s'. revert Hfst.
  destruct r as [|body uuid|st|tid|tid body|tid|tid n1 n2|tid|];
    unfold serve, respond; cbn [fst snd].
  - done.
  - destruct (parse_body body); cbn [fst snd]; [|done].
    intros _. apply create_task_stores.
  - intros _. destruct st as [q|]; cbn; [by destruct (decide (q = EmptyString))|done].
  - intros _. unfold get_task. by destruct (list_find _ _) as [[??]|].
  - destruct (parse_body body); cbn [fst snd]; [|done].
    intros _. apply update_task_stores.
  - done.
  - destruct (create_pomodoro tid n1 n2 s) as [res s1] eqn:Hrun. cbn [fst snd].
    by apply create_pomodoro_inv in Hrun as [(e' & -> & ->)|(-> & _ & _)].
  - destruct (stop_pomodoro tid s) as [res s1] eqn:Hrun. cbn [fst snd].
    by apply stop_pomodoro_inv in Hrun as [(-> & -> & _)|(-> & _)].
  - done.
Qed.

Lemma failed_request_changes_nothing_witness :
  serve (POST_pomodoro "id1" 0 1) three_sessions
  = (Err ActiveSessionExists, three_sessions).
Proof.
  assert (Hrun : ∃ s', serve (POST_pomodoro "id1" 0 1) three_sessions
                       = (Err ActiveSessionExists, s')) by (eexists; reflexivity).
  destruct Hrun as [s' Hrun].
  rewrite Hrun. f_equal.
  exact (failed_request_changes_nothing _ _ _ _ Hrun).
Defined.

Lemma stopped_at (pre post : list PomodoroSession) (y : PomodoroSession)
    (i : nat) (x : PomodoroSession) :
  (pre ++ y :: post) !! i = Some x →
  ∃ x', (pre ++ stop y :: post) !! i = Some x' ∧
        task_id x' = task_id x ∧ start_time x' = start_time x ∧
        end_time x' = end_time x ∧ (completed x = true → completed x' = true).
Proof.
  intros Hlook. destruct (decide (i = length pre)) as [->|Hne].
  - rewrite list_lookup_middle in Hlook by done. injection Hlook as <-.
    exists (stop y). by rewrite list_lookup_middle.
  - exists x. split; [|done].
    rewrite <- Hlook.
    replace (pre ++ stop y :: post) with (<[length pre := stop y]> (pre ++ y :: post)).
    + by rewrite list_lookup_insert_ne.
    + replace (length pre) with (length pre + 0)%nat by lia.
      by rewrite insert_app_r.
Qed.

Lemma handle_keeps_session (r : request) (s : state) (i : nat) (x : PomodoroSession) :
  pomodoro_sessions s !! i = Some x →
  ∃ x', pomodoro_sessions (handle r s) !! i = Some x' ∧
        task_id x' = task_id x ∧ start_time x' = start_time x ∧
        end_time x' = end_time x ∧ (completed x = true → completed x' = true).
Proof.
  intros Hlook.
  destruct (handle_sessions r s)
    as [->|[(tid & n1 & n2 & _ & ->)|(tid & pre & y & post & Hs & _ & ->)]].
  - by exists x.
  - exists x. split; [|done]. by apply lookup_app_l_Some.
  - rewrite Hs in Hlook. by apply stopped_at.
Qed.

(** X7.  No sequence of requests removes or reorders a session, changes
    the task id, the start time or the end time of a session, or reopens
    a completed session: the session at a position stays at that position
    with the same three fields, and once completed it stays completed. *)
Theorem sessions_are_kept (s0 s : state) (i : nat) (x : PomodoroSession) :
  reachable_from s0 s →
  pomodoro_sessions s0 !! i = Some x →
  ∃ x', pomodoro_sessions s !! i = Some x' ∧
        task_id x' = task_id x ∧ start_time x' = start_time x ∧
        end_time x' = end_time x ∧ (completed x = true → completed x' = true).
Proof.
  intros Hreach Hlook. induction Hreach as [|s r _ IH]; [by exists x|].
  destruct IH as (x1 & Hlook1 & Ht & Hs & He & Hc).
  destruct (handle_keeps_session r s i x1 Hlook1) as (x2 & Hlook2 & Ht2 & Hs2 & He2 & Hc2).
  exists x2. split_and!; [done|congruence..|auto].
Qed.

Lemma sessions_are_kept_witness :
  let s := handle (DELETE_task "id1") (handle (POST_pomodoro_stop "id1") three_sessions) in
  reachable_from three_sessions s ∧
  pomodoro_sessions three_sessions !! 1%nat
  = Some (mkPomodoroSession "id1" 10 1500000010 false) ∧
  ∃ x', pomodoro_sessions s !! 1%nat = Some x' ∧
        task_id x' = "id1" ∧ start_time x' = 10 ∧ end_time x' = 1500000010.
Proof.
  intros s.
  assert (Hreach : reachable_from three_sessions s)
    by apply reach_step, reach_step, reach_refl.
  assert (Hlook : pomodoro_sessions three_sessions !! 1%nat
                  = Some (mkPomodoroSession "id1" 10 1500000010 false)) by reflexivity.
  split; [exact Hreach|]. split; [exact Hlook|].
  destruct (sessions_are_kept three_sessions s 1 _ Hreach Hlook)
    as (x' & Hx' & Ht & Hs & He & _).
  exists x'. split; [exact Hx'|]. split; [exact Ht|]. split; [exact Hs|exact He].
Defined.

(** ** Sessions and statistics *)

Lemma completed_count_app (k : string) (l1 l2 : list PomodoroSession) :
  completed_count k (l1 ++ l2) = (completed_count k l1 + completed_count k l2)%nat.
Proof. unfold completed_count. by rewrite filter_app, length_app. Qed.

Lemma completed_durations_app (l1 l2 : list PomodoroSession) :
  completed_durations (l1 ++ l2) = completed_durations l1 ++ completed_durations l2.
Proof.
  induction l1 as [|x l1 IH]; cbn; [done|]. rewrite IH. by destruct (completed x).
Qed.

(** Completing an uncompleted session of [tid] adds one to the count of
    [tid] and nothing to the other counts. *)
Lemma completed_count_stopped
    (tid k : string) (pre post : list PomodoroSession) (y : PomodoroSession) :
  active tid y →
  completed_count k (pre ++ stop y :: post)
  = (completed_count k (pre ++ y :: post) + if decide (k = tid) then 1 else 0)%nat.
Proof.
  intros [Ht Hc]. rewrite !completed_count_app, !completed_count_cons. cbn.
  rewrite Ht, Hc.
  destruct (decide (tid = k ∧ true = true)) as [[-> _]|Hn].
  - destruct (decide (k = k)) as [_|Hn]; [|done].
    destruct (decide (k = k ∧ false = true)) as [[_ ?]|_]; [done|]. lia.
  - destruct (decide (k = tid)) as [->|_]; [by destruct Hn|].
    destruct (decide (tid = k ∧ false = true)) as [[_ ?]|_]; [done|]. lia.
Qed.

(** Completing an uncompleted session puts its duration among the
    durations of the completed sessions, at the place of the session. *)
Lemma completed_durations_stopped
    (tid : string) (pre post : list PomodoroSession) (y : PomodoroSession) :
  active tid y →
  completed_durations (pre ++ stop y :: post)
  = completed_durations pre ++ (end_time y - start_time y) :: completed_durations post ∧
  completed_durations (pre ++ y :: post)
  = completed_durations pre ++ completed_durations post.
Proof.
  intros [_ Hc]. rewrite !completed_durations_app. cbn. by rewrite Hc.
Qed.

Lemma handle_completed_count (r : request) (s : state) (k : string) :
  (completed_count k (pomodoro_sessions s)
   ≤ completed_count k (pomodoro_sessions (handle r s)))%nat.
Proof.
  destruct (handle_sessions r s)
    as [->|[(tid & n1 & n2 & _ & ->)|(tid & pre & y & post & Hs & Hy & ->)]].
  - done.
  - rewrite completed_count_app. lia.
  - rewrite (completed_count_stopped tid) by done. rewrite Hs. lia.
Qed.

(** X8.  The per-task counts of [get_pomodoro_stats] never go down: an
    entry of the mapping is still there after any sequence of requests,
    the deletion of its task included, with a count at least as large. *)
Theorem stats_counts_never_decrease
    (s0 s : state) (k : string) (n : nat) (stats0 stats : gmap string nat) (total0 total : pyfloat) :
  reachable_from s0 s →
  get_pomodoro_stats s0 = (Ok (stats0, total0), s0) →
  get_pomodoro_stats s = (Ok (stats, total), s) →
  stats0 !! k = Some n →
  ∃ n', stats !! k = Some n' ∧ (n ≤ n')%nat.
Proof.
  intros Hreach [= <- _] [= <- _].
  assert (Hle : (completed_count k (pomodoro_sessions s0)
                 ≤ completed_count k (pomodoro_sessions s))%nat).
  { induction Hreach as [|s r _ IH]; [done|].
    etrans; [exact IH|apply handle_completed_count]. }
  rewrite !completed_sessions_lookup.
  destruct (decide (completed_count k (pomodoro_sessions s0) = 0%nat)); [done|].
  intros [= <-]. rewrite decide_False by lia. eauto.
Qed.

Lemma stats_counts_never_decrease_witness :
  let s := handle (POST_pomodoro_stop "id1") (handle (DELETE_task "id1") three_sessions) in
  reachable_from three_sessions s ∧
  completed_sessions (pomodoro_sessions three_sessions) !! "id1" = Some 1%nat ∧
  ∃ n', completed_sessions (pomodoro_sessions s) !! "id1" = Some n' ∧ (1 ≤ n')%nat.
Proof.
  intros s.
  assert (Hreach : reachable_from three_sessions s)
    by apply reach_step, reach_step, reach_refl.
  assert (Hone : completed_sessions (pomodoro_sessions three_sessions) !! "id1"
                 = Some 1%nat) by reflexivity.
  split; [exact Hreach|]. split; [exact Hone|].
  exact (stats_counts_never_decrease three_sessions s "id1" 1 _ _ _ _
           Hreach eq_refl eq_refl Hone).
Defined.

(** X9.  A stop that succeeds is seen by the statistics at once: the
    count of the task id is one more than before (1 when it had no
    entry) and the other entries are as before; the items that the total
    adds up are the ones of before and one more, the seconds between the
    start time and the end time of the session that was stopped, at the
    place of that session in the order of the collection. *)
Theorem stop_pomodoro_counts_in_stats (tid : string) (s s1 : state) (m : string) :
  stop_pomodoro tid s = (Ok m, s1) →
  completed_sessions (pomodoro_sessions s1)
  = <[tid := S (default 0%nat (completed_sessions (pomodoro_sessions s) !! tid))]>
      (completed_sessions (pomodoro_sessions s)) ∧
  ∃ pre y post,
    pomodoro_sessions s = pre ++ y :: post ∧ active tid y ∧
    total_time_spent (pomodoro_sessions s)
    = py_sum (total_seconds <$> (completed_durations pre ++ completed_durations post)) ∧
    total_time_spent (pomodoro_sessions s1)
    = py_sum (total_seconds <$> (completed_durations pre
                                 ++ (end_time y - start_time y) :: completed_durations post)).
Proof.
  intros Hrun. apply stop_pomodoro_inv in Hrun
    as [(? & _)|(_ & pre & y & post & Hs & _ & Hy & ->)]; [done|].
  cbn [pomodoro_sessions]. split.
  - apply map_eq. intros k.
    rewrite completed_sessions_lookup, (completed_count_stopped tid) by done.
    rewrite <- Hs.
    destruct (decide (k = tid)) as [->|Hne].
    + rewrite lookup_insert_eq, completed_sessions_lookup.
      rewrite decide_False by lia.
      case_decide as Hz; [rewrite Hz|]; cbn; f_equal; lia.
    + rewrite lookup_insert_ne by done. rewrite completed_sessions_lookup.
      rewrite Nat.add_0_r. done.
  - exists pre, y, post. split; [done|]. split; [done|].
    destruct (completed_durations_stopped tid pre post y Hy) as [Hafter Hbefore].
    rewrite !total_time_spent_durations, Hs, Hafter, Hbefore. done.
Qed.

Lemma stop_pomodoro_counts_in_stats_witness :
  ∃ s1, stop_pomodoro "id1" three_sessions = (Ok "Pomodoro session stopped", s1) ∧
        completed_sessions (pomodoro_sessions s1) !! "id1" = Some 2%nat ∧
        total_time_spent (pomodoro_sessions s1)
        = py_sum [total_seconds 1500000000; total_seconds 1500000000].
Proof.
  assert (Hrun : ∃ s1, stop_pomodoro "id1" three_sessions
                       = (Ok "Pomodoro session stopped", s1)) by (eexists; reflexivity).
  destruct Hrun as [s1 Hrun]. exists s1. split; [exact Hrun|].
  destruct (stop_pomodoro_counts_in_stats _ _ _ _ Hrun) as [Hmap _].
  split.
  - rewrite Hmap, lookup_insert_eq. reflexivity.
  - injection Hrun as <-. reflexivity.
Defined.

Lemma completed_sessions_snoc (l : list PomodoroSession) (p : PomodoroSession) :
  completed_sessions (l ++ [p]) = count_session (completed_sessions l) p.
Proof. unfold completed_sessions. by rewrite fold_left_app. Qed.

(** X10.  A start that succeeds does not show in the statistics: the
    mapping is the same and the total adds up the same items.  The stop
    that follows it completes the session just started, and then the
    count of the task is one more than before the start and the total
    adds up the items of before the start and, last, one more: the
    seconds of 25 minutes plus the time between the two clock readings
    of the start. *)
Theorem start_then_stop_counts_one_session
    (tid : string) (now1 now2 : Z) (s s1 : state) (p : PomodoroSession) :
  create_pomodoro tid now1 now2 s = (Ok p, s1) →
  completed_sessions (pomodoro_sessions s1) = completed_sessions (pomodoro_sessions s) ∧
  total_time_spent (pomodoro_sessions s1) = total_time_spent (pomodoro_sessions s) ∧
  ∃ s2,
    stop_pomodoro tid s1 = (Ok "Pomodoro session stopped", s2) ∧
    pomodoro_sessions s2 = pomodoro_sessions s ++ [stop p] ∧
    completed_sessions (pomodoro_sessions s2) !! tid
    = Some (S (default 0%nat (completed_sessions (pomodoro_sessions s) !! tid))) ∧
    total_time_spent (pomodoro_sessions s2)
    = py_sum (total_seconds <$> (completed_durations (pomodoro_sessions s)
                                 ++ [timedelta_minutes 25 + (now2 - now1)])).
Proof.
  intros ((t & Hin & Hid) & Hnone & -> & ->)%create_pomodoro_Ok_inv.
  cbn [pomodoro_sessions].
  assert (Hstop : stop_pomodoro tid
                    (mkState (tasks s) (pomodoro_sessions s ++ [new_session tid now1 now2]))
                  = (Ok "Pomodoro session stopped",
                     mkState (tasks s)
                       (pomodoro_sessions s ++ [stop (new_session tid now1 now2)]))).
  { exact (stop_pomodoro_at tid
             (mkState (tasks s) (pomodoro_sessions s ++ [new_session tid now1 now2]))
             (pomodoro_sessions s) [] (new_session tid now1 now2)
             eq_refl Hnone (conj eq_refl eq_refl)). }
  split_and!.
  - by rewrite completed_sessions_snoc.
  - rewrite !total_time_spent_durations, completed_durations_app. cbn.
    by rewrite app_nil_r.
  - eexists. split; [exact Hstop|]. cbn [pomodoro_sessions]. split; [done|].
    destruct (stop_pomodoro_counts_in_stats tid _ _ _ Hstop) as [Hmap _].
    cbn [pomodoro_sessions] in Hmap. split.
    + rewrite Hmap, lookup_insert_eq. by rewrite completed_sessions_snoc.
    + rewrite total_time_spent_durations, completed_durations_app. cbn.
      replace (now2 + timedelta_minutes 25 - now1)
        with (timedelta_minutes 25 + (now2 - now1)) by lia.
      reflexivity.
Qed.

Lemma start_then_stop_counts_one_session_witness :
  ∃ s1 s2,
    create_pomodoro "id1" 0 3 one_task = (Ok (new_session "id1" 0 3), s1) ∧
    stop_pomodoro "id1" s1 = (Ok "Pomodoro session stopped", s2) ∧
    completed_sessions (pomodoro_sessions s2) !! "id1" = Some 1%nat ∧
    total_time_spent (pomodoro_sessions s2) = py_sum [total_seconds 1500000003].
Proof.
  assert (Hrun : ∃ s1, create_pomodoro "id1" 0 3 one_task
                       = (Ok (new_session "id1" 0 3), s1)) by (eexists; reflexivity).
  destruct Hrun as [s1 Hrun].
  destruct (start_then_stop_counts_one_session _ _ _ _ _ _ Hrun)
    as (_ & _ & s2 & Hstop & _ & Hcount & Htotal).
  exists s1, s2. split; [exact Hrun|]. split; [exact Hstop|]. split.
  - rewrite Hcount. reflexivity.
  - rewrite Htotal. reflexivity.
Defined.

(** X11.  When a task with the id is stored and the id has no
    uncompleted session, whatever completed sessions it has,
    [create_pomodoro] leaves the tasks and the earlier sessions as they
    are and appends one uncompleted session of the id; its start time is
    the first clock reading and its end time lies 25 minutes after the
    second one, so the session lasts 25 minutes plus the time between the
    readings, and at least 25 minutes when the clock has not gone back. *)
Theorem create_pomodoro_appends_session
    (tid : string) (now1 now2 : Z) (s : state) (t : Task) :
  t ∈ tasks s → id t = tid →
  (∀ x, x ∈ pomodoro_sessions s → ¬ active tid x) →
  ∃ p, create_pomodoro tid now1 now2 s
       = (Ok p, mkState (tasks s) (pomodoro_sessions s ++ [p])) ∧
       task_id p = tid ∧ completed p = false ∧ start_time p = now1 ∧
       end_time p - start_time p = timedelta_minutes 25 + (now2 - now1) ∧
       (now1 ≤ now2 → 1500000000 ≤ end_time p - start_time p).
Proof.
  intros Hin Hid Hnone. exists (new_session tid now1 now2).
  split; [by apply (create_pomodoro_starts _ _ _ _ t)|].
  cbn. unfold timedelta_minutes. split_and!; try done; lia.
Qed.

Lemma create_pomodoro_appends_session_witness :
  read_book ∈ tasks one_task ∧
  ∃ p, create_pomodoro "id1" 5 9 one_task = (Ok p, mkState [read_book] [p]) ∧
       end_time p - start_time p = 1500000004.
Proof.
  assert (Hin : read_book ∈ tasks one_task) by apply list_elem_of_here.
  split; [exact Hin|].
  destruct (create_pomodoro_appends_session "id1" 5 9 one_task read_book Hin eq_refl)
    as (p & Hrun & _ & _ & _ & Hlen & _).
  - intros x Hx. by apply elem_of_nil in Hx.
  - exists p. split; [exact Hrun|]. rewrite Hlen. reflexivity.
Defined.

(** X12.  The two errors of [create_pomodoro], in the order of its
    tests: when no stored task has the id it answers 404, also when the
    id still has an uncompleted session; when a task has the id and the
    id has an uncompleted session it answers 400.  The stores are
    unchanged in both cases. *)
Theorem create_pomodoro_errors (tid : string) (now1 now2 : Z) (s : state) :
  ((∀ t, t ∈ tasks s → id t ≠ tid) →
   create_pomodoro tid now1 now2 s = (Err NotFound_task, s)) ∧
  (∀ t x, t ∈ tasks s → id t = tid → x ∈ pomodoro_sessions s → active tid x →
   create_pomodoro tid now1 now2 s = (Err ActiveSessionExists, s)).
Proof.
  split.
  - apply create_pomodoro_not_found.
  - intros t x. apply create_pomodoro_active_exists.
Qed.

Lemma create_pomodoro_errors_witness :
  (∀ t, t ∈ tasks orphan_session → id t ≠ "id1") ∧
  (∃ x, x ∈ pomodoro_sessions orphan_session ∧ active "id1" x) ∧
  create_pomodoro "id1" 7 8 orphan_session = (Err NotFound_task, orphan_session).
Proof.
  assert (Hnone : ∀ t, t ∈ tasks orphan_session → id t ≠ "id1").
  { intros t Hin. apply list_elem_of_singleton in Hin. subst t. discriminate. }
  split; [exact Hnone|]. split.
  - eexists. split; [apply list_elem_of_here|]. split; reflexivity.
  - exact (proj1 (create_pomodoro_errors "id1" 7 8 orphan_session) Hnone).
Defined.

(** X13.  In stores with at most one uncompleted session per task id, a
    stop that follows a successful stop of the same id answers 404 and
    changes nothing. *)
Theorem stop_pomodoro_twice (tid : string) (s s1 : state) (m : string) :
  at_most_one_active s →
  stop_pomodoro tid s = (Ok m, s1) →
  stop_pomodoro tid s1 = (Err NotFound_session, s1).
Proof.
  intros Hinv Hrun. apply stop_pomodoro_inv in Hrun
    as [(? & _)|(_ & pre & y & post & Hs & Hpre & Hy & ->)]; [done|].
  specialize (Hinv tid). rewrite Hs, active_count_app, active_count_cons in Hinv.
  rewrite decide_True in Hinv by done.
  assert (Hpost : active_count tid post = 0%nat) by lia.
  apply stop_pomodoro_not_found. cbn.
  intros x [Hx|Hx]%elem_of_app; [by apply Hpre|].
  apply elem_of_cons in Hx as [->|Hx]; [apply stop_not_active|].
  by apply (proj1 (active_count_zero tid post)).
Qed.

Lemma stop_pomodoro_twice_witness :
  at_most_one_active orphan_session ∧
  ∃ s1, stop_pomodoro "id1" orphan_session = (Ok "Pomodoro session stopped", s1) ∧
        stop_pomodoro "id1" s1 = (Err NotFound_session, s1).
Proof.
  assert (Hinv : at_most_one_active orphan_session).
  { intros tid.
    change (pomodoro_sessions orphan_session)
      with [mkPomodoroSession "id1" 0 1500000000 false].
    rewrite active_count_cons. case_decide; cbn; lia. }
  split; [exact Hinv|].
  assert (Hrun : ∃ s1, stop_pomodoro "id1" orphan_session
                       = (Ok "Pomodoro session stopped", s1)) by (eexists; reflexivity).
  destruct Hrun as [s1 Hrun]. exists s1. split; [exact Hrun|].
  exact (stop_pomodoro_twice "id1" orphan_session s1 _ Hinv Hrun).
Defined.

(** ** delete_task and the other handlers *)

Lemma deleted_id_absent (tid : string) (s : state) (t : Task) :
  t ∈ tasks (snd (delete_task tid s)) → id t ≠ tid.
Proof. cbn. by intros [? _]%list_elem_of_filter. Qed.

(** X14.  After [delete_task] of an id, the id is gone for the handlers
    that look a task up: [get_task], [update_task] and [create_pomodoro]
    all answer 404 for it.  [stop_pomodoro] does not look the task up:
    for the deleted id it answers as it would have before the deletion
    and leaves the same sessions. *)
Theorem deleted_id_is_not_found (tid : string) (s : state) :
  let s' := snd (delete_task tid s) in
  get_task tid s' = (Err NotFound_task, s') ∧
  (∀ task, update_task tid task s' = (Err NotFound_task, s')) ∧
  (∀ now1 now2, create_pomodoro tid now1 now2 s' = (Err NotFound_task, s')) ∧
  fst (stop_pomodoro tid s') = fst (stop_pomodoro tid s) ∧
  pomodoro_sessions (snd (stop_pomodoro tid s'))
  = pomodoro_sessions (snd (stop_pomodoro tid s)).
Proof.
  intros s'. split_and!.
  - unfold get_task. rewrite find_task_None; [done|]. apply deleted_id_absent.
  - intros task. apply update_task_not_found, deleted_id_absent.
  - intros now1 now2. apply create_pomodoro_not_found, deleted_id_absent.
  - rewrite !stop_pomodoro_find. cbn [s' delete_task snd pomodoro_sessions].
    by destruct (list_find _ _) as [[??]|].
  - rewrite !stop_pomodoro_find. cbn [s' delete_task snd pomodoro_sessions].
    by destruct (list_find _ _) as [[??]|].
Qed.

Lemma find_other_after_filter (tid tid' : string) (l : list Task) :
  tid' ≠ tid →
  snd <$> list_find (λ task, id task = tid') (filter (λ task, id task ≠ tid) l)
  = snd <$> list_find (λ task, id task = tid') l.
Proof.
  intros Hne. induction l as [|x l IH]; [done|].
  rewrite filter_cons. destruct (decide (id x = tid')) as [Hx|Hx].
  - rewrite decide_True by congruence. cbn. by rewrite !decide_True.
  - assert (Hskip : ∀ k, snd <$> list_find (λ task, id task = tid') (x :: k)
                         = snd <$> list_find (λ task, id task = tid') k).
    { intros k. cbn. rewrite decide_False by done.
      rewrite <- option_fmap_compose. apply option_fmap_ext. by intros [??]. }
    rewrite Hskip. case_decide; [by rewrite Hskip|done].
Qed.

(** X15.  [delete_task] of one id does not change what [get_task]
    returns for another id. *)
Theorem delete_task_keeps_other_lookups (tid tid' : string) (s : state) :
  tid' ≠ tid →
  fst (get_task tid' (snd (delete_task tid s))) = fst (get_task tid' s).
Proof.
  intros Hne. unfold get_task. cbn [delete_task snd tasks].
  pose proof (find_other_after_filter tid tid' (tasks s) Hne) as Hfind.
  destruct (list_find _ (filter _ _)) as [[i t]|],
           (list_find _ (tasks s)) as [[j u]|]; cbn in Hfind; try done.
  by injection Hfind as ->.
Qed.

Lemma delete_task_keeps_other_lookups_witness :
  "id2" ≠ "id1" ∧
  fst (get_task "id2" (snd (delete_task "id1" shared_id))) = Ok write_report.
Proof.
  assert (Hne : "id2" ≠ "id1") by discriminate.
  split; [exact Hne|].
  rewrite (delete_task_keeps_other_lookups "id1" "id2" shared_id Hne).
  reflexivity.
Defined.

(** X16.  Two deletions lead to the same stores in either order. *)
Theorem delete_task_commutes (tid tid' : string) (s : state) :
  snd (delete_task tid (snd (delete_task tid' s)))
  = snd (delete_task tid' (snd (delete_task tid s))).
Proof.
  unfold delete_task. cbn. f_equal.
  rewrite !list_filter_filter. apply list_filter_iff. tauto.
Qed.

(** ** The counts of the statistics add up *)

Lemma count_total_insert (m : gmap string nat) (k : string) (v : nat) :
  count_total (<[k := v]> m) = (v + count_total (delete k m))%nat.
Proof.
  unfold count_total. rewrite <- insert_delete_eq.
  rewrite map_fold_insert_L; [done| |apply lookup_delete_eq].
  intros. lia.
Qed.

Lemma count_total_lookup (m : gmap string nat) (k : string) :
  count_total m = (default 0%nat (m !! k) + count_total (delete k m))%nat.
Proof.
  destruct (m !! k) as [v|] eqn:Hk.
  - rewrite <- (insert_delete_id m k v Hk) at 1. rewrite count_total_insert.
    by rewrite delete_delete_eq.
  - by rewrite delete_id.
Qed.

Lemma count_total_count_session (m : gmap string nat) (x : PomodoroSession) :
  count_total (count_session m x)
  = ((if completed x then 1 else 0) + count_total m)%nat.
Proof.
  unfold count_session. destruct (completed x); [|done].
  rewrite count_total_insert, (count_total_lookup m (task_id x)). lia.
Qed.

Lemma count_total_fold (l : list PomodoroSession) (m : gmap string nat) :
  count_total (fold_left count_session l m)
  = (count_total m + length (filter (λ session, completed session = true) l))%nat.
Proof.
  revert m. induction l as [|x l IH]; intros m; [cbn; lia|].
  cbn [fold_left]. rewrite IH, count_total_count_session, filter_cons.
  destruct (completed x).
  - rewrite decide_True by done. cbn. lia.
  - rewrite decide_False by done. lia.
Qed.

(** X17.  The counts of the mapping that [get_pomodoro_stats] returns
    add up to the number of completed sessions: every completed session
    is counted once, under its task id, and nothing else is counted. *)
Theorem stats_counts_add_up (s : state) :
  ∃ stats total,
    get_pomodoro_stats s = (Ok (stats, total), s) ∧
    count_total stats
    = length (filter (λ session, completed session = true) (pomodoro_sessions s)).
Proof.
  eexists _, _. split; [reflexivity|].
  unfold completed_sessions. rewrite count_total_fold. reflexivity.
Qed.

(** ** The model classes *)

Lemma field_name_Some (kw : kwargs) (n : string) :
  field_name kw = Some n → kw_lookup "name" kw = Some (VStr n) ∧ 3 ≤ len n ≤ 100.
Proof.
  unfold field_name. destruct (kw_lookup "name" kw) as [[|n']|]; try done.
  destruct (name_ok n') eqn:Hname; [|done].
  intros [= <-]. split; [done|]. by apply name_ok_spec.
Qed.

(** X18.  A [Task] that the constructor returns satisfies the
    constraints of its fields: the name is the one passed and has 3 to
    100 characters, the description is absent or has at most 300, and the
    status is TODO, IN_PROGRESS or DONE; the id is the fresh uuid when no
    id is passed, and the status is TODO when no status is passed.  A
    call without a name raises a [ValidationError] that names the field
    [name]. *)
Theorem Task_new_checks_fields (uuid : string) (kw : kwargs) :
  (∀ t, Task_new uuid kw = Ok t →
     valid_task t ∧
     (status t = "TODO" ∨ status t = "IN_PROGRESS" ∨ status t = "DONE") ∧
     kw_lookup "name" kw = Some (VStr (name t)) ∧
     (kw_lookup "id" kw = None → id t = uuid) ∧
     (kw_lookup "status" kw = None → status t = "TODO")) ∧
  (kw_lookup "name" kw = None →
   ∃ fields, Task_new uuid kw = Err (ValidationError "Task" fields) ∧ "name" ∈ fields).
Proof.
  split.
  - intros t. unfold Task_new.
    destruct (field_id uuid kw) as [i|] eqn:Hi, (field_name kw) as [n|] eqn:Hn,
             (field_description kw) as [d|] eqn:Hd, (field_status kw) as [st|] eqn:Hst;
      try done.
    intros [= <-]. cbn.
    apply field_name_Some in Hn as [Hlook Hlen].
    apply field_description_Some in Hd.
    split_and!; try done.
    + revert Hst. unfold field_status.
      destruct (kw_lookup "status" kw) as [[|st']|]; try done.
      * destruct (status_ok st') eqn:Hok; [|done]. intros [= <-].
        unfold status_ok in Hok.
        apply orb_true_iff in Hok as [Hok|Hok];
          [apply orb_true_iff in Hok as [Hok|Hok]|];
          apply bool_decide_eq_true in Hok; auto.
      * intros [= <-]. by left.
    + intros Hnone. revert Hi. unfold field_id. rewrite Hnone. by intros [= <-].
    + intros Hnone. revert Hst. unfold field_status. rewrite Hnone. by intros [= <-].
  - intros Hnone. unfold Task_new, field_name. rewrite Hnone.
    destruct (field_id uuid kw); eexists; (split; [reflexivity|]); cbn.
    + apply list_elem_of_here.
    + right. apply list_elem_of_here.
Qed.

(** A name of three characters that take nine bytes. *)
Lemma Task_new_checks_fields_witness :
  Task_new "u1" [("name", VStr "日本語")] = Ok (mkTask "u1" "日本語" None "TODO") ∧
  valid_task (mkTask "u1" "日本語" None "TODO").
Proof.
  assert (Hrun : Task_new "u1" [("name", VStr "日本語")]
                 = Ok (mkTask "u1" "日本語" None "TODO")) by reflexivity.
  split; [exact Hrun|].
  exact (proj1 (proj1 (Task_new_checks_fields "u1" [("name", VStr "日本語")]) _ Hrun)).
Defined.

(** X19.  A request body whose title, by the last member of that name,
    is a string of 3 to 100 characters, both bounds included, and whose
    description, by the last member of that name, is missing, null or a
    string of at most 300 characters, is accepted, and the handler
    receives that title and that description; members of the body with
    other names are ignored. *)
Theorem parse_body_accepts_valid (body : kwargs) (t : string) :
  kw_lookup "title" (json_object body) = Some (VStr t) →
  3 ≤ len t ≤ 100 →
  match kw_lookup "description" (json_object body) with
  | Some (VStr d) => len d ≤ 300
  | _ => True
  end →
  parse_body body
  = Ok (mkTaskCreate t match kw_lookup "description" (json_object body) with
                       | Some (VStr d) => Some d
                       | _ => None
                       end).
Proof.
  unfold parse_body, TaskCreate_new, field_title, field_description.
  generalize (json_object body). intros kw Ht Hlen Hd.
  rewrite Ht. rewrite (proj2 (name_ok_spec t) Hlen).
  destruct (kw_lookup "description" kw) as [[|d]|]; try done.
  cbn. by rewrite (proj2 (Z.leb_le _ _) Hd).
Qed.

(** A title of three characters that take nine bytes, given after a
    title that is too short, with a member that is no field. *)
Lemma parse_body_accepts_valid_witness :
  parse_body [("title", VStr "ab"); ("status", VStr "DONE");
              ("title", VStr "日本語"); ("description", VNone)]
  = Ok (mkTaskCreate "日本語" None).
Proof.
  apply (parse_body_accepts_valid
           [("title", VStr "ab"); ("status", VStr "DONE");
            ("title", VStr "日本語"); ("description", VNone)] "日本語").
  - reflexivity.
  - vm_compute. split; discriminate.
  - exact I.
Defined.
